(** * Monety: the authentication context, the home page and the login page

    A shallow embedding of the client code of the Monety web application:
    the invite-code generator, [register] and [login] of the authentication
    context, [fetchStats] of the home page and [handleSubmit] of the login
    page.

    The services the client talks to are modelled by the state they keep
    (the users and invites collections of the document database, the
    accounts of the identity provider) and by an environment of oracles for
    everything the client cannot decide: the values of [Math.random()], the
    rejection of an operation by the vendor service, the uid and token the
    identity provider hands out, the answer to an HTTP request.

    Asynchronous functions are computations over this world that return or
    throw.  Every operation issued to a backend is recorded, in order, so
    that statements can speak of what was asked and through which channel.
    The listeners of the authentication context ([onAuthStateChanged],
    [onSnapshot]) copy backend state into React state at a later time; they
    are modelled apart, as the callbacks the providers call.

    Strings are held as their UTF-8 bytes.  [toUpperCase] and [charAt] are
    computed where the bytes are ASCII characters and taken from the
    environment elsewhere; numbers that [Math.random()] returns are doubles,
    and their product by the length of the alphabet is rounded as the
    processor rounds it. *)

From Stdlib Require Import String Ascii List Arith Bool Lia ZArith QArith.
From Equations Require Import Equations.
Import ListNotations.

Local Open Scope string_scope.
Local Open Scope nat_scope.

(** ** JavaScript values *)

(** An error object: [new Error(msg)] has no [code]; the vendor SDK throws
    errors that carry one, such as ['auth/email-already-in-use']. *)
Record JsError : Type := mkJsError {
  err_code : option string;
  err_message : string
}.

Definition new_Error (msg : string) : JsError :=
  {| err_code := None; err_message := msg |}.

(** [error.code === c] *)
Definition code_is (e : JsError) (c : string) : bool :=
  match err_code e with
  | Some c' => String.eqb c' c
  | None => false
  end.

(** Truthiness of a string: the empty string is falsy. *)
Definition truthy (s : string) : bool :=
  match s with
  | EmptyString => false
  | String _ _ => true
  end.

(** Truthiness of [string | undefined] and of [string | null]. *)
Definition truthy_opt (o : option string) : bool :=
  match o with
  | Some s => truthy s
  | None => false
  end.

(** [x || null] on [string | undefined]. *)
Definition or_null (o : option string) : option string :=
  if truthy_opt o then o else None.

(** A string is the sequence of the bytes of its UTF-8 encoding; a string
    of ASCII characters is the sequence of its characters. *)
Fixpoint ascii_only (s : string) : bool :=
  match s with
  | EmptyString => true
  | String c rest => (nat_of_ascii c <? 128) && ascii_only rest
  end.

(** What [toUpperCase] returns for a string of ASCII characters: the letters
    a-z become A-Z and every other character stays as it is.  On other
    strings the method applies the case mapping of Unicode, which the
    environment provides (see [js_toUpperCase]). *)
Definition upper_ascii (c : ascii) : ascii :=
  let n := nat_of_ascii c in
  if (97 <=? n) && (n <=? 122) then ascii_of_nat (n - 32) else c.

Fixpoint toUpperCase (s : string) : string :=
  match s with
  | EmptyString => EmptyString
  | String c rest => String (upper_ascii c) (toUpperCase rest)
  end.

(** [s.charAt(i)]: the one-character string at index [i], or the empty
    string when [i] is out of range. *)
Definition charAt (s : string) (i : Z) : string :=
  if (i <? 0)%Z then ""
  else match String.get (Z.to_nat i) s with
       | Some c => String c ""
       | None => ""
       end.

(** ** Numbers: the doubles [Math.random()] returns and their products *)

(** The finite non-negative double [mantissa * 2 ^ exponent].  A pair with
    [0 <= mantissa < 2 ^ 53] and [-1074 <= exponent] denotes a double, and
    every non-negative double below 1 is denoted by such a pair. *)
Record Double : Type := mkDouble {
  mantissa : Z;
  exponent : Z
}.

(** A double of the interval [0, 1). *)
Definition unit_double (x : Double) : Prop :=
  (0 <= mantissa x < 2 ^ 53 /\ -1074 <= exponent x
   /\ mantissa x < 2 ^ (- exponent x))%Z.

(** The number of binary digits of a non-negative integer. *)
Definition bits (m : Z) : Z :=
  if (m =? 0)%Z then 0%Z else (Z.log2 m + 1)%Z.

(** [m / 2 ^ s] rounded to the nearest integer, a tie to the even one. *)
Definition round_half_even (m s : Z) : Z :=
  let q := (m / 2 ^ s)%Z in
  let rest := (m mod 2 ^ s)%Z in
  let half := (2 ^ (s - 1))%Z in
  if (rest <? half)%Z then q
  else if (half <? rest)%Z then (q + 1)%Z
  else if Z.even q then q else (q + 1)%Z.

(** [x * n] in double arithmetic, for an integer [n] that is a double: the
    exact product when it has at most 53 binary digits, and otherwise the
    product rounded to 53 digits, to nearest and ties to even.  The exponent
    only grows, so the product never falls below the smallest exponent. *)
Definition double_mul_nat (x : Double) (n : nat) : Double :=
  let m := (mantissa x * Z.of_nat n)%Z in
  let s := (bits m - 53)%Z in
  if (s <=? 0)%Z then mkDouble m (exponent x)
  else mkDouble (round_half_even m s) (exponent x + s).

(** [Math.floor(x)] *)
Definition Math_floor (x : Double) : Z := Z.shiftl (mantissa x) (exponent x).

(** [s.includes(sub)] *)
Fixpoint includes (s sub : string) : bool :=
  String.prefix sub s ||
  match s with
  | EmptyString => false
  | String _ rest => includes rest sub
  end.

(** ** Documents *)

(** The sentinel [serverTimestamp()] that the database replaces on write. *)
Inductive Timestamp : Type := serverTimestamp.

Module UserDoc.
Record t : Type := mk {
  email : string;
  balance : Z;
  inviteCode : string;
  invitedBy : option string;
  totalEarned : Z;
  totalWithdrawn : Z;
  role : string;
  createdAt : Timestamp
}.
End UserDoc.

Module InviteDoc.
Record t : Type := mk {
  inviterId : string;
  invitedId : string;
  level : Z;
  status : string;
  createdAt : Timestamp
}.
End InviteDoc.

(** The [User] of the authentication context: the uid and the fields of the
    user document spread over it. *)
Record User : Type := mkUser {
  user_id : string;
  user_data : UserDoc.t
}.

(** An account of the identity provider. *)
Record Account : Type := mkAccount {
  acc_email : string;
  acc_password : string;
  acc_uid : string
}.

(** The statistics the home page renders. *)
Record Stats : Type := mkStats {
  todayEarnings : Q;
  newInvites : Z
}.

(** ** Operations the client issues, and the channel each one uses *)

Inductive Op : Type :=
| Op_getDocs (collection field value : string)
| Op_getDoc (collection id : string)
| Op_setDoc (collection id : string) (data : UserDoc.t)
| Op_addDoc (collection : string) (data : InviteDoc.t)
| Op_createUserWithEmailAndPassword (email password : string)
| Op_signInWithEmailAndPassword (email password : string)
| Op_getIdToken (uid : string)
| Op_fetch (url : string) (headers : list (string * string)).

Inductive Channel : Type := VendorSDK | HttpFetch.

Definition channel (o : Op) : Channel :=
  match o with
  | Op_fetch _ _ => HttpFetch
  | _ => VendorSDK
  end.

Definition is_write (o : Op) : bool :=
  match o with
  | Op_setDoc _ _ _ | Op_addDoc _ _ | Op_createUserWithEmailAndPassword _ _ => true
  | _ => false
  end.

(** What the page shows or does besides talking to the backend. *)
Inductive UiEvent : Type :=
| Ui_toast_success (title description : string)
| Ui_toast_error (title description : string)
| Ui_navigate (path : string)
| Ui_console (msg : string).

(** ** The world: backend state and client state *)

Record World : Type := mkWorld {
  (* document database; a collection lists its documents in query order *)
  users : list (string * UserDoc.t);
  invites : list InviteDoc.t;
  (* identity provider *)
  accounts : list Account;
  (* React state of the authentication context *)
  token : option string;
  user : option User;
  (* React state of the home page *)
  stats : Stats;
  loadingStats : bool;
  (* React state of the login page *)
  error : string;
  loading : bool;
  (* what the pages did *)
  ui : list UiEvent;
  (* number of [Math.random()] draws so far *)
  rand_pos : nat;
  (* every backend operation issued so far, oldest first *)
  calls : list Op
}.

Definition set_users (v : list (string * UserDoc.t)) (w : World) : World :=
  mkWorld v (invites w) (accounts w) (token w) (user w) (stats w)
          (loadingStats w) (error w) (loading w) (ui w) (rand_pos w) (calls w).

Definition set_invites (v : list InviteDoc.t) (w : World) : World :=
  mkWorld (users w) v (accounts w) (token w) (user w) (stats w)
          (loadingStats w) (error w) (loading w) (ui w) (rand_pos w) (calls w).

Definition set_accounts (v : list Account) (w : World) : World :=
  mkWorld (users w) (invites w) v (token w) (user w) (stats w)
          (loadingStats w) (error w) (loading w) (ui w) (rand_pos w) (calls w).

Definition set_token (v : option string) (w : World) : World :=
  mkWorld (users w) (invites w) (accounts w) v (user w) (stats w)
          (loadingStats w) (error w) (loading w) (ui w) (rand_pos w) (calls w).

Definition set_user (v : option User) (w : World) : World :=
  mkWorld (users w) (invites w) (accounts w) (token w) v (stats w)
          (loadingStats w) (error w) (loading w) (ui w) (rand_pos w) (calls w).

Definition set_stats (v : Stats) (w : World) : World :=
  mkWorld (users w) (invites w) (accounts w) (token w) (user w) v
          (loadingStats w) (error w) (loading w) (ui w) (rand_pos w) (calls w).

Definition set_loadingStats (v : bool) (w : World) : World :=
  mkWorld (users w) (invites w) (accounts w) (token w) (user w) (stats w)
          v (error w) (loading w) (ui w) (rand_pos w) (calls w).

Definition set_error (v : string) (w : World) : World :=
  mkWorld (users w) (invites w) (accounts w) (token w) (user w) (stats w)
          (loadingStats w) v (loading w) (ui w) (rand_pos w) (calls w).

Definition set_loading (v : bool) (w : World) : World :=
  mkWorld (users w) (invites w) (accounts w) (token w) (user w) (stats w)
          (loadingStats w) (error w) v (ui w) (rand_pos w) (calls w).

Definition set_ui (v : list UiEvent) (w : World) : World :=
  mkWorld (users w) (invites w) (accounts w) (token w) (user w) (stats w)
          (loadingStats w) (error w) (loading w) v (rand_pos w) (calls w).

Definition set_rand_pos (v : nat) (w : World) : World :=
  mkWorld (users w) (invites w) (accounts w) (token w) (user w) (stats w)
          (loadingStats w) (error w) (loading w) (ui w) v (calls w).

Definition set_calls (v : list Op) (w : World) : World :=
  mkWorld (users w) (invites w) (accounts w) (token w) (user w) (stats w)
          (loadingStats w) (error w) (loading w) (ui w) (rand_pos w) v.

(** Recording an operation. *)
Definition log (op : Op) (w : World) : World := set_calls (calls w ++ [op]) w.

(** ** The environment: what the client cannot decide *)

(** An HTTP response as [fetchStats] looks at it. *)
Record Response : Type := mkResponse {
  resp_ok : bool;
  resp_status : nat;
  resp_content_type : option string;
  (* the outcome of [response.json()]; [None] when the body does not parse *)
  resp_json : option Stats
}.

Inductive FetchOutcome : Type :=
| Fetch_rejects (e : JsError)
| Fetch_resolves (r : Response).

Record Env : Type := mkEnv {
  (* the n-th value of [Math.random()] *)
  random : nat -> Double;
  (* whether the n-th backend operation is rejected by the vendor service,
     and with which error (network failure, weak password, ...) *)
  fault : nat -> option JsError;
  (* the uid the identity provider gives the n-th account *)
  fresh_uid : nat -> string;
  (* the token [getIdToken] resolves to, by operation number *)
  id_token : nat -> string;
  (* the error of the identity provider for a bad email/password pair *)
  reject_signin : string -> string -> JsError;
  (* the outcome of the n-th operation when it is an HTTP request *)
  http : nat -> FetchOutcome;
  (* [s.toUpperCase()] for a string with characters outside ASCII *)
  upper_case : string -> string;
  (* [s.charAt(i)] for a string with characters outside ASCII *)
  char_at : string -> Z -> string
}.

(** [Math.random()] returns a double of the interval [0, 1). *)
Definition random_ok (env : Env) : Prop :=
  forall n, unit_double (random env n).

(** [s.toUpperCase()]: computed on a string of ASCII characters, taken from
    the environment otherwise. *)
Definition js_toUpperCase (env : Env) (s : string) : string :=
  if ascii_only s then toUpperCase s else upper_case env s.

(** [s.charAt(i)]: a string is held as its UTF-8 bytes, and the UTF-16 unit
    at index [i] is the byte at index [i] when the bytes up to it are ASCII
    characters; the environment answers otherwise. *)
Definition js_charAt (env : Env) (s : string) (i : Z) : string :=
  if ascii_only (String.substring 0 (S (Z.to_nat i)) s) then charAt s i
  else char_at env s i.

(** ** Asynchronous code with exceptions over the world *)

Inductive Result (A : Type) : Type :=
| Ok (a : A)
| Throw (e : JsError).
Arguments Ok {A} a.
Arguments Throw {A} e.

Definition M (A : Type) : Type := World -> Result A * World.

Definition ret {A} (a : A) : M A := fun w => (Ok a, w).

Definition throw {A} (e : JsError) : M A := fun w => (Throw e, w).

Definition bind {A B} (m : M A) (k : A -> M B) : M B :=
  fun w =>
    match m w with
    | (Ok a, w1) => k a w1
    | (Throw e, w1) => (Throw e, w1)
    end.

(** [try { m } catch (error) { h error }] *)
Definition try_catch {A} (m : M A) (h : JsError -> M A) : M A :=
  fun w =>
    match m w with
    | (Ok a, w1) => (Ok a, w1)
    | (Throw e, w1) => h e w1
    end.

(** [try { m } finally { f }], for a [finally] block that cannot throw *)
Definition try_finally {A} (m : M A) (f : World -> World) : M A :=
  fun w => let (r, w1) := m w in (r, f w1).

Definition modify (f : World -> World) : M unit := fun w => (Ok tt, f w).

Definition get {A} (f : World -> A) : M A := fun w => (Ok (f w), w).

Declare Scope js_scope.
Delimit Scope js_scope with js.
Notation "x <- m ;; k" := (bind m (fun x => k))
  (at level 61, m at next level, right associativity) : js_scope.
Notation "m ;;; k" := (bind m (fun _ => k))
  (at level 61, right associativity) : js_scope.
Local Open Scope js_scope.

Definition emit (e : UiEvent) : M unit :=
  modify (fun w => set_ui (ui w ++ [e]) w).

(** ** The document database *)

(** [query(collection(db, 'users'), where('inviteCode', '==', v))]: the
    documents whose [inviteCode] field equals [v], in collection order. *)
Definition where_inviteCode (v : string) (c : list (string * UserDoc.t))
  : list (string * UserDoc.t) :=
  filter (fun d => String.eqb (UserDoc.inviteCode (snd d)) v) c.

(** [snapshot.empty] *)
Definition empty {A} (snapshot : list A) : bool :=
  match snapshot with
  | [] => true
  | _ :: _ => false
  end.

(** [setDoc(doc(db, 'users', id), data)] replaces the document with this id,
    or creates it. *)
Fixpoint set_doc (id : string) (data : UserDoc.t) (c : list (string * UserDoc.t))
  : list (string * UserDoc.t) :=
  match c with
  | [] => [(id, data)]
  | (k, v) :: rest =>
      if String.eqb k id then (id, data) :: rest
      else (k, v) :: set_doc id data rest
  end.

Fixpoint get_doc (id : string) (c : list (string * UserDoc.t)) : option UserDoc.t :=
  match c with
  | [] => None
  | (k, v) :: rest => if String.eqb k id then Some v else get_doc id rest
  end.

(** Document ids of the database are never empty. *)
Definition ids_ok (w : World) : Prop :=
  forall id d, In (id, d) (users w) -> id <> "".

Section Client.

Variable env : Env.

(** ** Calls into the vendor SDK *)

(** Every call is recorded; the vendor service may reject it, otherwise it
    takes effect.  The body receives the number of the operation. *)
Definition sdk_call {A} (op : Op) (body : nat -> M A) : M A :=
  fun w =>
    let n := length (calls w) in
    let w1 := log op w in
    match fault env n with
    | Some e => (Throw e, w1)
    | None => body n w1
    end.

Definition getDocs_users_where_inviteCode (v : string)
  : M (list (string * UserDoc.t)) :=
  sdk_call (Op_getDocs "users" "inviteCode" v)
           (fun _ => get (fun w => where_inviteCode v (users w))).

Definition getDoc_users (id : string) : M (option UserDoc.t) :=
  sdk_call (Op_getDoc "users" id) (fun _ => get (fun w => get_doc id (users w))).

Definition setDoc_users (id : string) (data : UserDoc.t) : M unit :=
  sdk_call (Op_setDoc "users" id data)
           (fun _ => modify (fun w => set_users (set_doc id data (users w)) w)).

Definition addDoc_invites (data : InviteDoc.t) : M unit :=
  sdk_call (Op_addDoc "invites" data)
           (fun _ => modify (fun w => set_invites (invites w ++ [data]) w)).

Definition email_in_use : JsError :=
  {| err_code := Some "auth/email-already-in-use";
     err_message := "Firebase: Error (auth/email-already-in-use)." |}.

(** Resolves to [userCredential.user.uid]. *)
Definition createUserWithEmailAndPassword (email password : string) : M string :=
  sdk_call (Op_createUserWithEmailAndPassword email password)
    (fun _ =>
       accs <- get accounts ;;
       if existsb (fun a => String.eqb (acc_email a) email) accs
       then throw email_in_use
       else
         let uid := fresh_uid env (length accs) in
         modify (set_accounts (accs ++ [mkAccount email password uid])) ;;;
         ret uid).

(** Resolves to [userCredential.user.uid]. *)
Definition signInWithEmailAndPassword (email password : string) : M string :=
  sdk_call (Op_signInWithEmailAndPassword email password)
    (fun _ =>
       accs <- get accounts ;;
       match find (fun a => String.eqb (acc_email a) email
                            && String.eqb (acc_password a) password) accs with
       | Some a => ret (acc_uid a)
       | None => throw (reject_signin env email password)
       end).

Definition getIdToken (uid : string) : M string :=
  sdk_call (Op_getIdToken uid) (fun n => ret (id_token env n)).

(** ** The invite-code generator *)

Definition Math_random : M Double :=
  fun w => (Ok (random env (rand_pos w)), set_rand_pos (S (rand_pos w)) w).

Definition chars : string := "ABCDEFGHIJKLMNOPQRSTUVWXYZ0123456789".

(** [Math.floor(Math.random() * chars.length)] for the draw [r] *)
Definition random_index (r : Double) : Z :=
  Math_floor (double_mul_nat r (String.length chars)).

(** The [for] loop of [generateInviteCode], with [n] iterations left. *)
Fixpoint generateInviteCode_for (n : nat) (code : string) : M string :=
  match n with
  | O => ret code
  | S n' =>
      r <- Math_random ;;
      generateInviteCode_for n' (code ++ charAt chars (random_index r))
  end.

Definition generateInviteCode : M string := generateInviteCode_for 6 "MP".

Definition checkInviteCodeExists (code : string) : M bool :=
  snapshot <- getDocs_users_where_inviteCode code ;;
  ret (negb (empty snapshot)).

(** The [while] loop of [generateUniqueInviteCode]: the existence check is
    evaluated first, then [attempts < 10]. *)
Equations? generateUniqueInviteCode_while (code : string) (attempts : nat) (w : World)
  : Result string * World by wf (10 - attempts) lt :=
generateUniqueInviteCode_while code attempts w with checkInviteCodeExists code w => {
  | (Throw e, w1) => (Throw e, w1);
  | (Ok false, w1) => (Ok code, w1);
  | (Ok true, w1) with lt_dec attempts 10 => {
    | right _ => (Ok code, w1);
    | left _ with generateInviteCode w1 => {
      | (Throw e, w2) => (Throw e, w2);
      | (Ok code', w2) => generateUniqueInviteCode_while code' (S attempts) w2 } } }.
Proof.
  clear generateUniqueInviteCode_while.
  do 10 (destruct attempts as [|attempts]; [lia|]); lia.
Qed.

Definition generateUniqueInviteCode : M string :=
  code <- generateInviteCode ;;
  generateUniqueInviteCode_while code 0.

(** ** The authentication context *)

Definition register (email password : string) (inviteCode : option string) : M unit :=
  try_catch
    (inviterUid <-
       (match inviteCode with
        | Some c =>
            if truthy c then
              snapshot <- getDocs_users_where_inviteCode (js_toUpperCase env c) ;;
              match snapshot with
              | [] => throw (new_Error "Código de convite inválido")
              | d :: _ => ret (Some (fst d))
              end
            else ret None
        | None => ret None
        end) ;;
     uid <- createUserWithEmailAndPassword email password ;;
     idToken <- getIdToken uid ;;
     modify (set_token (Some idToken)) ;;;
     newInviteCode <- generateUniqueInviteCode ;;
     setDoc_users uid
       (UserDoc.mk email 0 newInviteCode (or_null inviterUid) 0 0 "user"
                   serverTimestamp) ;;;
     match inviterUid with
     | Some inviter =>
         if truthy inviter then
           addDoc_invites (InviteDoc.mk inviter uid 1 "pending" serverTimestamp)
         else ret tt
     | None => ret tt
     end)
    (fun error =>
       if code_is error "auth/email-already-in-use"
       then throw (new_Error "Email já cadastrado")
       else throw error).

Definition login (email password : string) : M unit :=
  try_catch
    (uid <- signInWithEmailAndPassword email password ;;
     idToken <- getIdToken uid ;;
     modify (set_token (Some idToken)) ;;;
     userDoc <- getDoc_users uid ;;
     match userDoc with
     | Some data => modify (set_user (Some (mkUser uid data)))
     | None => ret tt
     end)
    (fun error =>
       if code_is error "auth/invalid-credential"
          || code_is error "auth/wrong-password"
       then throw (new_Error "Email ou senha inválidos")
       else throw error).

(** ** The home page *)

(** [fetch(url, { headers })]: an HTTP request, not a call into the SDK. *)
Definition fetch (url : string) (headers : list (string * string)) : M Response :=
  fun w =>
    let n := length (calls w) in
    let w1 := log (Op_fetch url headers) w in
    match http env n with
    | Fetch_rejects e => (Throw e, w1)
    | Fetch_resolves r => (Ok r, w1)
    end.

(** [response.json()] *)
Definition response_json (r : Response) : M Stats :=
  match resp_json r with
  | Some data => ret data
  | None => throw (new_Error "Unexpected token in JSON")
  end.

Definition fetchStats : M unit :=
  tok <- get token ;;
  match tok with
  | None => ret tt
  | Some t =>
      if negb (truthy t) then ret tt
      else
        modify (set_loadingStats true) ;;;
        try_finally
          (try_catch
             (response <- fetch "/api/stats/today"
                                [("Authorization", "Bearer " ++ t)] ;;
              match resp_content_type response with
              | Some contentType =>
                  if resp_ok response && truthy contentType
                     && includes contentType "application/json"
                  then data <- response_json response ;; modify (set_stats data)
                  else emit (Ui_console "API retornou erro ou não é JSON:")
              | None => emit (Ui_console "API retornou erro ou não é JSON:")
              end)
             (fun err => emit (Ui_console "Error fetching stats:")))
          (set_loadingStats false)
  end.

(** ** The login page *)

(** The [catch] block of [handleSubmit]: the message shown for [err]. *)
Definition errorMessage_of (err : JsError) : string :=
  if code_is err "auth/invalid-credential"
     || includes (err_message err) "invalid-credential"
  then "E-mail ou senha incorretos."
  else if code_is err "auth/user-not-found" then "Usuário não encontrado."
  else if code_is err "auth/wrong-password" then "Senha incorreta."
  else if code_is err "auth/too-many-requests"
  then "Muitas tentativas falhas. Tente novamente mais tarde."
  else "Erro ao fazer login".

Definition handleSubmit (email password : string) : M unit :=
  modify (set_error "") ;;;
  modify (set_loading true) ;;;
  try_finally
    (try_catch
       (login email password ;;;
        emit (Ui_toast_success "🎉 Bem-vindo ao Monety!" "Login realizado com sucesso") ;;;
        emit (Ui_navigate "/home"))
       (fun err =>
          emit (Ui_console (err_message err)) ;;;
          let errorMessage := errorMessage_of err in
          modify (set_error errorMessage) ;;;
          emit (Ui_toast_error "Falha no login" errorMessage)))
    (set_loading false).

End Client.

(** * The rest of the authentication context and of the pages *)

(** The signed-in user as the vendor SDK presents it ([auth.currentUser],
    the argument of the [onAuthStateChanged] callback). *)
Record FirebaseUser : Type := mkFirebaseUser {
  fb_uid : string;
  fb_email : option string
}.

Section Session.

Variable env : Env.

(** [refreshUser]; [auth.currentUser] is the argument.  The [email] the
    function takes from the current user is overwritten by the one of the
    document spread after it. *)
Definition refreshUser (currentUser : option FirebaseUser) : M unit :=
  match currentUser with
  | Some cu =>
      idToken <- getIdToken env (fb_uid cu) ;;
      modify (set_token (Some idToken)) ;;;
      userDoc <- getDoc_users env (fb_uid cu) ;;
      match userDoc with
      | Some data => modify (set_user (Some (mkUser (fb_uid cu) data)))
      | None => ret tt
      end
  | None => ret tt
  end.

(** The callback the provider hands to [onAuthStateChanged].  It resolves to
    the document listeners it registered with [onSnapshot]: one for the
    signed-in user, whose unsubscribe function is dropped. *)
Definition onAuthStateChanged_callback (firebaseUser : option FirebaseUser)
  : M (list FirebaseUser) :=
  match firebaseUser with
  | Some fu =>
      try_catch
        (idToken <- getIdToken env (fb_uid fu) ;;
         modify (set_token (Some idToken)) ;;;
         ret [fu])
        (fun error =>
           emit (Ui_console "Erro ao processar dados do usuário:") ;;;
           modify (set_token None) ;;;
           modify (set_user None) ;;;
           ret [])
  | None =>
      modify (set_user None) ;;;
      modify (set_token None) ;;;
      ret []
  end.

(** The callback of a document listener registered for [fu], called with
    the data of the snapshot ([None] when the document does not exist). *)
Definition onSnapshot_callback (fu : FirebaseUser) (docSnap : option UserDoc.t)
  : M unit :=
  match docSnap with
  | Some data => modify (set_user (Some (mkUser (fb_uid fu) data)))
  | None => ret tt
  end.

(** The database delivers the current state of the user's document to the
    listener registered for [fu]. *)
Definition deliver_snapshot (fu : FirebaseUser) : M unit :=
  docSnap <- get (fun w => get_doc (fb_uid fu) (users w)) ;;
  onSnapshot_callback fu docSnap.

End Session.

(** ** The home page, besides [fetchStats] *)

(** [user?.email?.charAt(0).toUpperCase() || 'M'] *)
Definition getUserInitial (env : Env) (u : option User) : string :=
  match u with
  | Some usr =>
      let initial :=
        js_toUpperCase env (js_charAt env (UserDoc.email (user_data usr)) 0) in
      if truthy initial then initial else "M"
  | None => "M"
  end.

(** [s.split(sep)[0]]: what precedes the first separator. *)
Fixpoint split_first (sep : ascii) (s : string) : string :=
  match s with
  | EmptyString => EmptyString
  | String c rest =>
      if Ascii.eqb c sep then EmptyString else String c (split_first sep rest)
  end.

(** The name of the welcome header:
    [user?.email?.split('@')[0] || 'Usuário'] *)
Definition welcomeName (u : option User) : string :=
  match u with
  | Some usr =>
      let name := split_first "@" (UserDoc.email (user_data usr)) in
      if truthy name then name else "Usuário"
  | None => "Usuário"
  end.

(** What the home page renders: a spinner until the user is loaded. *)
Inductive HomeView : Type :=
| Home_spinner
| Home_content (name initial : string) (shown : Stats).

Definition HomePage (env : Env) (w : World) : HomeView :=
  match user w with
  | None => Home_spinner
  | Some _ =>
      Home_content (welcomeName (user w)) (getUserInitial env (user w)) (stats w)
  end.

(** ** The application shell *)

Inductive Page : Type := home | products | team | profile.

Inductive AuthPage : Type := login_page | register_page.

Inductive View : Type :=
| View_loading
| View_auth (shown : AuthPage)
| View_shell (shown : Page).

(** [AppContent]: [loading], [u] and [t] are what it takes from [useAuth()],
    [currentPage] and [showAuth] its own state. *)
Definition AppContent (loading : option bool) (u : option User) (t : option string)
           (currentPage : Page) (showAuth : AuthPage) : View :=
  if match loading with Some b => b | None => false end then View_loading
  else if negb (match u with Some _ => true | None => false end)
          && negb (truthy_opt t)
  then View_auth showAuth
  else View_shell currentPage.

(** The value of the provider is [{ user, token, login, register, logout,
    refreshUser }]: it has no [loading], which [AppContent] therefore reads
    as undefined. *)
Definition App (w : World) (currentPage : Page) (showAuth : AuthPage) : View :=
  AppContent None (user w) (token w) currentPage showAuth.

(** * Vocabulary of the statements *)

(** ** The shape of an invite code *)

(** An uppercase letter A-Z or a digit 0-9. *)
Definition is_code_char (c : ascii) : bool :=
  let n := nat_of_ascii c in
  ((65 <=? n) && (n <=? 90)) || ((48 <=? n) && (n <=? 57)).

Fixpoint all_chars (p : ascii -> bool) (s : string) : bool :=
  match s with
  | EmptyString => true
  | String c rest => p c && all_chars p rest
  end.

(** ['MP'] followed by [n] characters of the alphabet. *)
Definition code_shape (n : nat) (s : string) : bool :=
  match s with
  | String "M" (String "P" rest) =>
      (String.length rest =? n) && all_chars is_code_char rest
  | _ => false
  end.

(** ** The probing loop *)

(** Whether some user document already carries [code]. *)
Definition taken (code : string) (w : World) : bool :=
  negb (empty (where_inviteCode code (users w))).

(** The existence check the client issues for a candidate. *)
Definition check_op (code : string) : Op := Op_getDocs "users" "inviteCode" code.

(** What a run of the loop does, in terms of the candidates [more] it
    generated after [code]: one existence check per candidate, six draws per
    generated candidate, and nothing else. *)
Definition probed (code : string) (more : list string) (w : World) : World :=
  set_rand_pos (6 * length more + rand_pos w)
               (set_calls (calls w ++ map check_op (code :: more)) w).

(** The same for the whole function: [cands] are the candidates in the
    order they were generated and checked. *)
Definition probed_all (cands : list string) (w : World) : World :=
  set_rand_pos (6 * length cands + rand_pos w)
               (set_calls (calls w ++ map check_op cands) w).

(** ** Runs of [register] *)

(** The world after the account has been created and its token stored. *)
Definition signed_up (env : Env) (email password : string) (w : World) : World :=
  let uid := fresh_uid env (length (accounts w)) in
  set_token (Some (id_token env (S (length (calls w)))))
    (log (Op_getIdToken uid)
       (set_accounts (accounts w ++ [mkAccount email password uid])
          (log (Op_createUserWithEmailAndPassword email password) w))).

(** The world after [setDoc] has written the user document. *)
Definition user_written (uid : string) (d : UserDoc.t) (w : World) : World :=
  set_users (set_doc uid d (users w)) (log (Op_setDoc "users" uid d) w).

(** The world after [addDoc] has added the invite record. *)
Definition invite_added (i : InviteDoc.t) (w : World) : World :=
  set_invites (invites w ++ [i]) (log (Op_addDoc "invites" i) w).

Definition new_user_doc (email code : string) (inviter : option string) : UserDoc.t :=
  UserDoc.mk email 0 code inviter 0 0 "user" serverTimestamp.

Definition new_invite (inviter uid : string) : InviteDoc.t :=
  InviteDoc.mk inviter uid 1 "pending" serverTimestamp.

(** A relation between the world before and after that every run of a
    computation respects. *)
Definition preserves (R : World -> World -> Prop) {A} (m : M A) : Prop :=
  forall w r w', m w = (r, w') -> R w w'.

(** ** Predicates of the statements *)

(** The fields [register] initialises. *)
Definition initialised (d : UserDoc.t) : Prop :=
  UserDoc.balance d = 0%Z /\ UserDoc.totalEarned d = 0%Z
  /\ UserDoc.totalWithdrawn d = 0%Z /\ UserDoc.role d = "user".

(** Every user document of [w'] was already in [w] or satisfies [P]. *)
Definition users_grow (P : UserDoc.t -> Prop) (w w' : World) : Prop :=
  forall id d, In (id, d) (users w') -> In (id, d) (users w) \/ P d.

(** From [w] to [w'] only operations through the vendor SDK were issued. *)
Definition sdk_only (w w' : World) : Prop :=
  exists delta,
    calls w' = (calls w ++ delta)%list
    /\ Forall (fun o => channel o = VendorSDK) delta.

(** [(id, d)] is the first document of the collection whose [inviteCode]
    field equals [code]. *)
Definition first_match (code : string) (c : list (string * UserDoc.t))
           (id : string) (d : UserDoc.t) : Prop :=
  exists before after,
    c = (before ++ (id, d) :: after)%list
    /\ UserDoc.inviteCode d = code
    /\ forall x, In x before -> UserDoc.inviteCode (snd x) <> code.

(** The one operation [fetchStats] issues for the token [t]. *)
Definition stats_request (t : string) : Op :=
  Op_fetch "/api/stats/today" [("Authorization", "Bearer " ++ t)].

Definition is_addDoc (o : Op) : bool :=
  match o with
  | Op_addDoc _ _ => true
  | _ => false
  end.

(** ** Draws that spell a given code *)

(** The position of [c] in [s], the length of [s] when [c] does not occur. *)
Fixpoint index_in (c : ascii) (s : string) : nat :=
  match s with
  | EmptyString => 0
  | String a rest => if Ascii.eqb a c then 0 else S (index_in c rest)
  end.

Definition double_zero : Double := mkDouble 0 0.

(** A double in the middle of the [k]-th of the 36 equal parts of the
    interval [0, 1): [(2 k + 1) / 72], cut to 53 binary digits. *)
Definition draw_for_index (k : nat) : Double :=
  mkDouble ((2 * Z.of_nat k + 1) * 2 ^ 52 / 36) (-53).

(** Values of [Math.random()] that, from the draw number [p] on, select the
    characters of [rest] in the alphabet. *)
Definition draws_for (p : nat) (rest : string) (n : nat) : Double :=
  if n <? p then double_zero
  else match String.get (n - p) rest with
       | Some c => draw_for_index (index_in c chars)
       | None => double_zero
       end.

Definition env_drawing (p : nat) (rest : string) : Env :=
  mkEnv (draws_for p rest) (fun _ => None) (fun _ => "uid") (fun _ => "token")
        (fun _ _ => new_Error "rejected") (fun _ => Fetch_rejects (new_Error "offline"))
        (fun s => s) (fun _ _ => "").

(** ** Sample environments and worlds *)

Definition sample_uid (n : nat) : string :=
  "uid-" ++ String (ascii_of_nat (48 + n)) "".

Definition invalid_credential : JsError :=
  {| err_code := Some "auth/invalid-credential";
     err_message := "Firebase: Error (auth/invalid-credential)." |}.

Definition sample_response : Response :=
  mkResponse true 200 (Some "application/json; charset=utf-8")
             (Some (mkStats (5 # 2) 3)).

(** The case mapping of the samples, as in Unicode: the dotless ['ı'] of
    ['mpaaaaaı'] has the upper case ['I'], and ['ß'] the upper case ['SS']. *)
Definition sample_upper_case (s : string) : string :=
  if String.eqb s "mpaaaaaı" then "MPAAAAAI"
  else if String.eqb s "ß" then "SS" else s.

(** [charAt] of the samples: the first character of ['ßeta@monety.app']. *)
Definition sample_char_at (s : string) (i : Z) : string :=
  if String.eqb s "ßeta@monety.app" && (i =? 0)%Z then "ß" else "".

(** Every draw is 0, so every candidate is ['MPAAAAAA']; nothing is
    rejected; a bad sign-in is answered with ['auth/invalid-credential']. *)
Definition env_zero : Env :=
  mkEnv (fun _ => double_zero) (fun _ => None) sample_uid (fun _ => "token")
        (fun _ _ => invalid_credential) (fun _ => Fetch_resolves sample_response)
        sample_upper_case sample_char_at.

(** The draws walk through the alphabet: the first candidate is
    ['MPABCDEF'], the second ['MPGHIJKL']. *)
Definition env_walk : Env :=
  mkEnv (fun n => draw_for_index (n mod 36)) (fun _ => None) sample_uid
        (fun _ => "token") (fun _ _ => invalid_credential)
        (fun _ => Fetch_resolves sample_response)
        sample_upper_case sample_char_at.

Definition empty_world : World :=
  mkWorld [] [] [] None None (mkStats 0 0) false "" false [] 0 [].

Definition ana_doc : UserDoc.t := new_user_doc "ana@monety.app" "MPAAAAAA" None.

Definition bia_doc : UserDoc.t := new_user_doc "bia@monety.app" "MPABCDEF" None.

(** Two registered users, Ana and Bia. *)
Definition world_two : World :=
  set_accounts [mkAccount "ana@monety.app" "secret" "ana";
                mkAccount "bia@monety.app" "hidden" "bia"]
    (set_users [("ana", ana_doc); ("bia", bia_doc)] empty_world).

(** The same, with Ana's token in the authentication context. *)
Definition world_logged_in : World := set_token (Some "token") world_two.

(** Caio registers with Ana's invite code, typed in lower case. *)
Definition caio_registers : Result unit * World :=
  register env_walk "caio@monety.app" "pw1234" (Some "mpaaaaaa") world_two.

(** Dani registers next, with the code Caio was given. *)
Definition dani_registers : Result unit * World :=
  register env_walk "dani@monety.app" "pw5678" (Some "mpghijkl") (snd caio_registers).

Definition permission_denied : JsError :=
  {| err_code := Some "permission-denied";
     err_message := "Missing or insufficient permissions." |}.

(** As [env_walk], but the vendor service rejects the operation number [k]. *)
Definition env_rejecting (k : nat) : Env :=
  mkEnv (fun n => draw_for_index (n mod 36))
        (fun n => if n =? k then Some permission_denied else None) sample_uid
        (fun _ => "token") (fun _ _ => invalid_credential)
        (fun _ => Fetch_resolves sample_response)
        sample_upper_case sample_char_at.

(** Caio's registration when the write of his document, the sixth
    operation, is rejected. *)
Definition caio_half_registers : Result unit * World :=
  register (env_rejecting 5) "caio@monety.app" "pw1234" (Some "mpaaaaaa") world_two.

(** * Properties *)

(** ** The shape of an invite code *)

Section Rounding.

Local Open Scope Z_scope.

Lemma round_half_even_nonneg (m s : Z) :
  0 <= m -> 0 < s -> 0 <= round_half_even m s.
Proof.
  intros Hm Hs. unfold round_half_even.
  assert (Hp : 0 < 2 ^ s) by (apply Z.pow_pos_nonneg; lia).
  assert (Hq : 0 <= m / 2 ^ s) by (apply Z.div_pos; lia).
  destruct (_ <? _); [lia |]. destruct (_ <? _); [lia |].
  destruct (Z.even _); lia.
Qed.

(** Rounding stays below an integer bound that the exact quotient misses by
    more than one half. *)
Lemma round_half_even_below (m s b : Z) :
  0 < s -> m + 2 ^ (s - 1) < b * 2 ^ s -> round_half_even m s <= b - 1.
Proof.
  intros Hs Hb. unfold round_half_even.
  assert (Hp : 0 < 2 ^ (s - 1)) by (apply Z.pow_pos_nonneg; lia).
  assert (Hd : 2 ^ s = 2 * 2 ^ (s - 1)).
  { replace s with (Z.succ (s - 1)) at 1 by lia. apply Z.pow_succ_r. lia. }
  pose proof (Z.div_mod m (2 ^ s) ltac:(lia)) as Hdm.
  pose proof (Z.mod_pos_bound m (2 ^ s) ltac:(lia)) as Hr.
  set (q := m / 2 ^ s) in *. set (r := m mod 2 ^ s) in *.
  set (h := 2 ^ (s - 1)) in *. rewrite Hd in *.
  destruct (Z.ltb_spec r h); [nia |].
  destruct (Z.ltb_spec h r); [nia |].
  destruct (Z.even q); nia.
Qed.

(** The product of a double below 1 by 36 is below 36 after rounding too:
    the largest double below 1 is [1 - 2 ^ -53], its exact product misses 36
    by [36 * 2 ^ -53], more than half the distance [2 ^ -47] between the
    doubles next to 36, and a smaller product is rounded at a position that
    is at most the sixth binary digit, where one half is at most 32 < 36. *)
Lemma floor_mul_36_range (r : Double) :
  unit_double r -> 0 <= Math_floor (double_mul_nat r 36) < 36.
Proof.
  destruct r as [m e]. unfold unit_double, Math_floor, double_mul_nat.
  cbn [mantissa exponent]. intros [[Hm0 Hm53] [He Hm]].
  change (Z.of_nat 36) with 36.
  assert (Hneg : e <= 0).
  { destruct (Z_le_gt_dec e 0) as [|Hpos]; [assumption |].
    rewrite Z.pow_neg_r in Hm by lia. lia. }
  assert (Hpe : 0 < 2 ^ (- e)) by (apply Z.pow_pos_nonneg; lia).
  destruct (Z.leb_spec (bits (m * 36) - 53) 0) as [Hs|Hs]; cbn [mantissa exponent].
  - rewrite Z.shiftl_div_pow2 by lia. split.
    + apply Z.div_pos; lia.
    + apply Z.div_lt_upper_bound; lia.
  - unfold bits in *.
    destruct (Z.eqb_spec (m * 36) 0) as [Hz|Hz]; [lia |].
    set (s := Z.log2 (m * 36) + 1 - 53) in *.
    assert (HM : 0 < m * 36) by lia.
    pose proof (Z.log2_spec (m * 36) HM) as [Hlo Hhi].
    assert (Hlog59 : Z.log2 (m * 36) < 59).
    { apply Z.log2_lt_pow2; [lia |]. change (2 ^ 59) with (64 * 2 ^ 53). lia. }
    assert (Hs6 : 1 <= s <= 6) by (unfold s; lia).
    assert (Hes : 47 <= - e - s).
    { assert (Hlt : 2 ^ (Z.log2 (m * 36)) < 2 ^ (6 - e)).
      { replace (6 - e) with (6 + - e) by lia. rewrite Z.pow_add_r by lia.
        change (2 ^ 6) with 64. lia. }
      apply Z.pow_lt_mono_r_iff in Hlt; [| lia | lia]. unfold s. lia. }
    rewrite Z.shiftl_div_pow2 by lia.
    replace (- (e + s)) with (- e - s) by lia.
    assert (Hps : 0 < 2 ^ (- e - s)) by (apply Z.pow_pos_nonneg; lia).
    assert (Hsplit : 2 ^ (- e) = 2 ^ (- e - s) * 2 ^ s).
    { rewrite <- Z.pow_add_r by lia. f_equal. lia. }
    assert (Hhalf : 2 ^ (s - 1) <= 32).
    { change 32 with (2 ^ 5). apply Z.pow_le_mono_r; lia. }
    split.
    + apply Z.div_pos; [apply round_half_even_nonneg; lia | lia].
    + apply Z.div_lt_upper_bound; [lia |].
      assert (Hround : round_half_even (m * 36) s <= 36 * 2 ^ (- e - s) - 1).
      { apply round_half_even_below; [lia |].
        rewrite <- Z.mul_assoc, <- Hsplit. lia. }
      lia.
Qed.

End Rounding.

Lemma random_index_range (r : Double) :
  unit_double r -> (0 <= random_index r < 36)%Z.
Proof. intros Hr. unfold random_index. now apply floor_mul_36_range. Qed.

(** The product is rounded as the doubles are: [0.4444444444444444 * 36] is
    [16] although the exact product is below it, and the largest double
    below 1 still gives [35]. *)
Example random_index_rounds :
  random_index (mkDouble 8006399337547548 (-54)) = 16%Z
  /\ random_index (mkDouble 9007199254740991 (-53)) = 35%Z
  /\ random_index double_zero = 0%Z.
Proof. vm_compute. auto. Qed.

Lemma chars_alphabet (n : nat) :
  n < 36 ->
  exists c, String.get n chars = Some c /\ is_code_char c = true.
Proof.
  intros Hn.
  assert (Hall : forallb (fun i => match String.get i chars with
                                   | Some c => is_code_char c
                                   | None => false
                                   end) (seq 0 36) = true) by (vm_compute; reflexivity).
  rewrite forallb_forall in Hall.
  specialize (Hall n). rewrite in_seq in Hall.
  destruct (String.get n chars) as [c|].
  - exists c. split; [reflexivity | apply Hall; lia].
  - discriminate Hall. lia.
Qed.

Lemma charAt_random_index (r : Double) :
  unit_double r ->
  exists c, charAt chars (random_index r) = String c "" /\ is_code_char c = true.
Proof.
  intros Hr. destruct (random_index_range r Hr) as [Hlo Hhi].
  unfold charAt. destruct (Z.ltb_spec (random_index r) 0); [lia |].
  destruct (chars_alphabet (Z.to_nat (random_index r))) as [c [Hc Hp]]; [lia |].
  exists c. rewrite Hc. auto.
Qed.

Lemma length_append_one (s : string) (c : ascii) :
  String.length (s ++ String c "") = S (String.length s).
Proof. induction s; simpl; [reflexivity | now rewrite IHs]. Qed.

Lemma all_chars_append_one p (s : string) (c : ascii) :
  all_chars p (s ++ String c "") = all_chars p s && p c.
Proof.
  induction s as [|a s IH]; simpl.
  - now rewrite andb_true_r.
  - rewrite IH. now rewrite andb_assoc.
Qed.

Lemma code_shape_inv (n : nat) (s : string) :
  code_shape n s = true ->
  exists rest,
    s = String "M" (String "P" rest)
    /\ String.length rest = n /\ all_chars is_code_char rest = true.
Proof.
  unfold code_shape. intros Hs.
  destruct s as [|a [|b rest]];
    [discriminate | destruct a as [[] [] [] [] [] [] [] []]; discriminate |].
  destruct a as [[] [] [] [] [] [] [] []]; try discriminate Hs.
  destruct b as [[] [] [] [] [] [] [] []]; try discriminate Hs.
  apply andb_true_iff in Hs. destruct Hs as [Hl Ha].
  apply Nat.eqb_eq in Hl. exists rest. auto.
Qed.

Lemma code_shape_append_one (n : nat) (s : string) (c : ascii) :
  code_shape n s = true -> is_code_char c = true ->
  code_shape (S n) (s ++ String c "") = true.
Proof.
  intros Hs Hc. destruct (code_shape_inv n s Hs) as [rest [-> [Hl Ha]]].
  cbn [append code_shape].
  rewrite length_append_one, all_chars_append_one, Hl, Ha, Hc.
  simpl. now rewrite Nat.eqb_refl.
Qed.


(** ** The generator draws six characters and touches nothing else *)

Section Generator.

Variable env : Env.

Lemma generateInviteCode_for_run (n : nat) : forall (code : string) (w : World),
  exists code',
    generateInviteCode_for env n code w
    = (Ok code', set_rand_pos (n + rand_pos w) w).
Proof.
  induction n as [|n IH]; intros code w; simpl.
  - exists code. unfold ret. destruct w; reflexivity.
  - unfold bind, Math_random.
    destruct (IH (code ++ charAt chars (random_index (random env (rand_pos w))))
                 (set_rand_pos (S (rand_pos w)) w)) as [code' Hrun].
    exists code'. rewrite Hrun. f_equal.
    unfold set_rand_pos; simpl. f_equal. lia.
Qed.

Lemma generateInviteCode_for_shape (n : nat) :
  random_ok env ->
  forall (k : nat) (code code' : string) (w w' : World),
    code_shape k code = true ->
    generateInviteCode_for env n code w = (Ok code', w') ->
    code_shape (n + k) code' = true.
Proof.
  intros Hr. induction n as [|n IH]; intros k code code' w w' Hs Hrun; simpl in *.
  - unfold ret in Hrun. now inversion Hrun; subst.
  - unfold bind, Math_random in Hrun.
    destruct (charAt_random_index _ (Hr (rand_pos w))) as [c [Hc Hp]].
    rewrite Hc in Hrun.
    replace (S (n + k)) with (n + S k) by lia.
    eapply IH; [| exact Hrun].
    now apply code_shape_append_one.
Qed.

Lemma generateInviteCode_run (w : World) :
  exists code,
    generateInviteCode env w = (Ok code, set_rand_pos (6 + rand_pos w) w).
Proof. apply generateInviteCode_for_run. Qed.

Lemma generateInviteCode_shape (w w' : World) (code : string) :
  random_ok env ->
  generateInviteCode env w = (Ok code, w') ->
  code_shape 6 code = true.
Proof.
  intros Hr Hrun.
  apply (generateInviteCode_for_shape 6 Hr 0 "MP" code w w'); [reflexivity | exact Hrun].
Qed.

End Generator.

(** ** The probing loop *)

Lemma last_cons_default {A} (l : list A) : forall (a d : A),
  last (a :: l) d = last l a.
Proof.
  induction l as [|b l IH]; intros a d; [reflexivity |].
  change (last (a :: b :: l) d) with (last (b :: l) d).
  now rewrite !IH.
Qed.

Section Probing.

Variable env : Env.

Lemma checkInviteCodeExists_run (code : string) (w : World) :
  checkInviteCodeExists env code w
  = match fault env (length (calls w)) with
    | Some e => (Throw e, log (check_op code) w)
    | None => (Ok (taken code w), log (check_op code) w)
    end.
Proof.
  unfold checkInviteCodeExists, getDocs_users_where_inviteCode, sdk_call, bind, get, ret.
  destruct (fault env (length (calls w))); reflexivity.
Qed.

Lemma generateUniqueInviteCode_while_step (code : string) (attempts : nat) (w : World) :
  generateUniqueInviteCode_while env code attempts w
  = match checkInviteCodeExists env code w with
    | (Throw e, w1) => (Throw e, w1)
    | (Ok found, w1) =>
        if found && (attempts <? 10) then
          match generateInviteCode env w1 with
          | (Ok code', w2) => generateUniqueInviteCode_while env code' (S attempts) w2
          | (Throw e, w2) => (Throw e, w2)
          end
        else (Ok code, w1)
    end.
Proof.
  rewrite generateUniqueInviteCode_while_equation_1.
  destruct (checkInviteCodeExists env code w) as [[[|]|e] w1];
    simp generateUniqueInviteCode_while; try reflexivity.
  destruct (lt_dec attempts 10) as [Hlt|Hge]; simp generateUniqueInviteCode_while.
  - destruct (Nat.ltb_spec attempts 10); [| lia]. simpl.
    destruct (generateInviteCode env w1) as [[code'|e] w2];
      simp generateUniqueInviteCode_while; reflexivity.
  - destruct (Nat.ltb_spec attempts 10); [lia | reflexivity].
Qed.

Ltac stop_here w :=
  exists []; cbn [length last removelast];
  rewrite ?Nat.add_0_r; repeat split;
  auto with arith;
  try (unfold probed, log; destruct w; reflexivity);
  try (right; lia).

Lemma generateUniqueInviteCode_while_spec (k : nat) :
  forall (code : string) (attempts : nat) (w : World) r w',
    10 - attempts <= k ->
    generateUniqueInviteCode_while env code attempts w = (r, w') ->
    exists more : list string,
      length more <= 10 - attempts
      /\ w' = probed code more w
      /\ Forall (fun c => taken c w = true) (removelast (code :: more))
      /\ (random_ok env -> Forall (fun c => code_shape 6 c = true) more)
      /\ match r with
         | Ok c =>
             c = last more code
             /\ (taken c w = false \/ length more = 10 - attempts)
         | Throw e => fault env (length (calls w) + length more) = Some e
         end.
Proof.
  induction k as [|k IH]; intros code attempts w r w' Hk Hrun;
    rewrite generateUniqueInviteCode_while_step, checkInviteCodeExists_run in Hrun;
    destruct (fault env (length (calls w))) as [e|] eqn:Hfault.
  1, 3: inversion Hrun; subst; stop_here w.
  - (* no iteration left: attempts >= 10 *)
    destruct (Nat.ltb_spec attempts 10); [lia |].
    rewrite andb_false_r in Hrun. inversion Hrun; subst. stop_here w.
  - destruct (taken code w) eqn:Htaken; cbn [andb] in Hrun.
    + destruct (Nat.ltb_spec attempts 10) as [Hlt|Hge].
      * destruct (generateInviteCode_run env (log (check_op code) w)) as [code' Hgen].
        rewrite Hgen in Hrun.
        apply IH in Hrun; [| lia].
        destruct Hrun as [more [Hlen [Hw' [Hall [Hshape Hres]]]]].
        exists (code' :: more). simpl length. repeat split.
        -- lia.
        -- rewrite Hw'. unfold probed, log, set_rand_pos, set_calls; simpl.
           f_equal; [lia | now rewrite <- app_assoc].
        -- change (removelast (code :: code' :: more))
             with (code :: removelast (code' :: more)).
           constructor; [exact Htaken | exact Hall].
        -- intros Hr. constructor; [| auto].
           eapply generateInviteCode_shape; eauto.
        -- destruct r as [c|e].
           ++ destruct Hres as [Hc Hstop]. split.
              ** rewrite Hc. symmetry. apply last_cons_default.
              ** destruct Hstop as [Hfree|Hstop]; [left; exact Hfree | right; lia].
           ++ rewrite <- Hres. f_equal. unfold log, set_rand_pos, set_calls; simpl.
              rewrite length_app. simpl. lia.
      * inversion Hrun; subst. stop_here w.
    + inversion Hrun; subst. stop_here w.
Qed.

Lemma generateUniqueInviteCode_spec (w : World) r w' :
  generateUniqueInviteCode env w = (r, w') ->
  exists (first : string) (more : list string),
    length more <= 10
    /\ w' = probed_all (first :: more) w
    /\ Forall (fun c => taken c w = true) (removelast (first :: more))
    /\ (random_ok env -> Forall (fun c => code_shape 6 c = true) (first :: more))
    /\ match r with
       | Ok c =>
           c = last more first
           /\ (taken c w = false \/ length more = 10)
       | Throw e => fault env (length (calls w) + length more) = Some e
       end.
Proof.
  unfold generateUniqueInviteCode, bind. intros Hrun.
  destruct (generateInviteCode_run env w) as [first Hgen]. rewrite Hgen in Hrun.
  apply (generateUniqueInviteCode_while_spec 10) in Hrun; [| lia].
  destruct Hrun as [more [Hlen [Hw' [Hall [Hshape Hres]]]]].
  exists first, more. repeat split.
  - exact Hlen.
  - rewrite Hw'. unfold probed, probed_all, set_rand_pos, set_calls; simpl.
    f_equal. lia.
  - exact Hall.
  - intros Hr. constructor; [eapply generateInviteCode_shape; eauto | auto].
  - destruct r; exact Hres.
Qed.

End Probing.

(** ** Reasoning about runs *)

Lemma bind_ok_inv {A B} (m : M A) (k : A -> M B) (w w' : World) (b : B) :
  bind m k w = (Ok b, w') ->
  exists a w1, m w = (Ok a, w1) /\ k a w1 = (Ok b, w').
Proof.
  unfold bind. destruct (m w) as [[a|e] w1]; intros H; [eauto | discriminate].
Qed.

Lemma try_catch_ok_inv {A} (m : M A) (h : JsError -> M A) (w w' : World) (a : A) :
  (forall e w1, exists e', h e w1 = (Throw e', w1)) ->
  try_catch m h w = (Ok a, w') ->
  m w = (Ok a, w').
Proof.
  unfold try_catch. intros Hh. destruct (m w) as [[a1|e] w1]; intros H; [exact H |].
  destruct (Hh e w1) as [e' He']. rewrite He' in H. discriminate.
Qed.

Section Preserves.

Variable R : World -> World -> Prop.
Hypothesis R_refl : forall w, R w w.
Hypothesis R_trans : forall a b c, R a b -> R b c -> R a c.

Lemma preserves_ret {A} (a : A) : preserves R (ret a).
Proof. intros w r w' H. inversion H; subst. apply R_refl. Qed.

Lemma preserves_throw {A} (e : JsError) : preserves R (@throw A e).
Proof. intros w r w' H. inversion H; subst. apply R_refl. Qed.

Lemma preserves_get {A} (f : World -> A) : preserves R (get f).
Proof. intros w r w' H. inversion H; subst. apply R_refl. Qed.

Lemma preserves_modify (f : World -> World) :
  (forall w, R w (f w)) -> preserves R (modify f).
Proof. intros Hf w r w' H. inversion H; subst. apply Hf. Qed.

Lemma preserves_bind {A B} (m : M A) (k : A -> M B) :
  preserves R m -> (forall a, preserves R (k a)) -> preserves R (bind m k).
Proof.
  intros Hm Hk w r w' H. unfold bind in H.
  destruct (m w) as [[a|e] w1] eqn:Hrun.
  - eapply R_trans; [eapply Hm; eauto | eapply Hk; eauto].
  - inversion H; subst. eapply Hm; eauto.
Qed.

Lemma preserves_try_catch {A} (m : M A) (h : JsError -> M A) :
  preserves R m -> (forall e, preserves R (h e)) -> preserves R (try_catch m h).
Proof.
  intros Hm Hh w r w' H. unfold try_catch in H.
  destruct (m w) as [[a|e] w1] eqn:Hrun.
  - inversion H; subst. eapply Hm; eauto.
  - eapply R_trans; [eapply Hm; eauto | eapply Hh; eauto].
Qed.

Lemma preserves_try_finally {A} (m : M A) (f : World -> World) :
  preserves R m -> (forall w, R w (f w)) -> preserves R (try_finally m f).
Proof.
  intros Hm Hf w r w' H. unfold try_finally in H.
  destruct (m w) as [r1 w1] eqn:Hrun. inversion H; subst.
  eapply R_trans; [eapply Hm; eauto | apply Hf].
Qed.

Lemma preserves_sdk_call (env : Env) {A} (op : Op) (body : nat -> M A) :
  (forall w, R w (log op w)) ->
  (forall n, preserves R (body n)) ->
  preserves R (sdk_call env op body).
Proof.
  intros Hlog Hbody w r w' H. unfold sdk_call in H.
  destruct (fault env (length (calls w))).
  - inversion H; subst. apply Hlog.
  - eapply R_trans; [apply Hlog | eapply Hbody; exact H].
Qed.

(** What the relation has to allow for the code of the authentication
    context to respect it. *)
Hypothesis R_log : forall op w, channel op = VendorSDK -> R w (log op w).
Hypothesis R_rand_pos : forall n w, R w (set_rand_pos n w).
Hypothesis R_token : forall t w, R w (set_token t w).
Hypothesis R_user : forall u w, R w (set_user u w).
Hypothesis R_accounts : forall a w, R w (set_accounts a w).
Hypothesis R_invites : forall i w, R w (set_invites i w).
Hypothesis R_new_user : forall uid email code inviter w,
  R w (set_users (set_doc uid (UserDoc.mk email 0 code inviter 0 0 "user"
                                          serverTimestamp) (users w)) w).

Lemma R_checks (cands : list string) : forall w,
  R w (set_calls (calls w ++ map check_op cands) w).
Proof.
  induction cands as [|c cands IH] using rev_ind; intros w.
  - simpl. rewrite app_nil_r. destruct w; apply R_refl.
  - eapply R_trans; [apply IH |].
    rewrite map_app, app_assoc. simpl.
    match goal with
    | |- R ?a ?b => replace b with (log (check_op c) a)
    end; [apply R_log; reflexivity |].
    unfold log, set_calls; simpl. reflexivity.
Qed.

Lemma preserves_generateUniqueInviteCode (env : Env) :
  preserves R (generateUniqueInviteCode env).
Proof.
  intros w r w' H. apply generateUniqueInviteCode_spec in H.
  destruct H as [first [more [_ [-> _]]]]. unfold probed_all.
  eapply R_trans; [apply R_checks | apply R_rand_pos].
Qed.

Ltac preserves_step :=
  first
    [ apply preserves_ret | apply preserves_throw | apply preserves_get
    | apply preserves_generateUniqueInviteCode
    | apply preserves_bind; [| intros ?]
    | apply preserves_try_catch; [| intros ?]
    | apply preserves_sdk_call; [intros ?; apply R_log; reflexivity | intros ?]
    | apply preserves_modify; intros ?; auto
    | match goal with
      | |- preserves R (match ?x with _ => _ end) => destruct x
      | |- preserves R (fun _ => match ?x with _ => _ end) => destruct x eqn:?
      | |- preserves R (fun w => if ?x then _ else _) => destruct x eqn:?
      end ].

Lemma preserves_register (env : Env) (email password : string) (inviteCode : option string) :
  preserves R (register env email password inviteCode).
Proof.
  unfold register, getDocs_users_where_inviteCode, createUserWithEmailAndPassword,
    getIdToken, setDoc_users, addDoc_invites.
  repeat preserves_step.
Qed.

Lemma preserves_login (env : Env) (email password : string) :
  preserves R (login env email password).
Proof.
  unfold login, signInWithEmailAndPassword, getIdToken, getDoc_users.
  repeat preserves_step.
Qed.

End Preserves.

(** ** A successful run of [register], step by step *)

Section RegisterRuns.

Variable env : Env.

Lemma sdk_call_ok_inv {A} (op : Op) (body : nat -> M A) (w w' : World) (a : A) :
  sdk_call env op body w = (Ok a, w') ->
  fault env (length (calls w)) = None
  /\ body (length (calls w)) (log op w) = (Ok a, w').
Proof.
  unfold sdk_call. destruct (fault env (length (calls w))); intros H;
    [discriminate | auto].
Qed.

Lemma register_ok_inv (email password : string) (inviteCode : option string)
      (w w' : World) :
  register env email password inviteCode w = (Ok tt, w') ->
  exists (inviterUid : option string) (w1 w3 : World) (code : string),
    ((truthy_opt inviteCode = false /\ inviterUid = None /\ w1 = w)
     \/ (exists c d rest,
           inviteCode = Some c /\ truthy c = true
           /\ where_inviteCode (js_toUpperCase env c) (users w) = d :: rest
           /\ inviterUid = Some (fst d)
           /\ w1 = log (check_op (js_toUpperCase env c)) w))
    /\ existsb (fun a => String.eqb (acc_email a) email) (accounts w) = false
    /\ generateUniqueInviteCode env (signed_up env email password w1) = (Ok code, w3)
    /\ let uid := fresh_uid env (length (accounts w)) in
       let d := UserDoc.mk email 0 code (or_null inviterUid) 0 0 "user"
                           serverTimestamp in
       w' = match or_null inviterUid with
            | Some inviter =>
                invite_added (InviteDoc.mk inviter uid 1 "pending" serverTimestamp)
                             (user_written uid d w3)
            | None => user_written uid d w3
            end.
Proof.
  unfold register. intros H.
  apply try_catch_ok_inv in H;
    [| intros e w1; destruct (code_is e "auth/email-already-in-use"); eexists; reflexivity].
  apply bind_ok_inv in H. destruct H as [inviterUid [w1 [Hlookup H]]].
  apply bind_ok_inv in H. destruct H as [uid [w2 [Hcreate H]]].
  apply bind_ok_inv in H. destruct H as [idToken [w2' [Htoken H]]].
  apply bind_ok_inv in H. destruct H as [[] [w2'' [Hset H]]].
  apply bind_ok_inv in H. destruct H as [code [w3 [Hgen H]]].
  apply bind_ok_inv in H. destruct H as [[] [w4 [Hdoc H]]].
  (* the lookup *)
  assert (Hl : (truthy_opt inviteCode = false /\ inviterUid = None /\ w1 = w)
     \/ (exists c d rest,
           inviteCode = Some c /\ truthy c = true
           /\ where_inviteCode (js_toUpperCase env c) (users w) = d :: rest
           /\ inviterUid = Some (fst d)
           /\ w1 = log (check_op (js_toUpperCase env c)) w)).
  { destruct inviteCode as [c|]; [destruct (truthy c) eqn:Hc |].
    - right. apply bind_ok_inv in Hlookup.
      destruct Hlookup as [snapshot [wq [Hq Hsnap]]].
      apply sdk_call_ok_inv in Hq. destruct Hq as [_ Hq].
      unfold get in Hq. inversion Hq; subst. clear Hq.
      destruct (where_inviteCode (js_toUpperCase env c) (users w)) as [|d rest] eqn:Hw;
        [discriminate |].
      inversion Hsnap; subst. exists c, d, rest. auto.
    - left. inversion Hlookup; subst. simpl. auto.
    - left. inversion Hlookup; subst. auto. }
  assert (Hacc : accounts w1 = accounts w /\ length (calls w1) = length (calls w1)).
  { split; [| reflexivity].
    destruct Hl as [[_ [_ ->]] | [c [d [rest [_ [_ [_ [_ ->]]]]]]]]; reflexivity. }
  destruct Hacc as [Hacc _].
  (* the account *)
  apply sdk_call_ok_inv in Hcreate. destruct Hcreate as [_ Hcreate].
  unfold bind, get in Hcreate. cbn [accounts log set_calls] in Hcreate.
  destruct (existsb _ (accounts w1)) eqn:Hused; [discriminate |].
  unfold modify, ret in Hcreate. inversion Hcreate; subst uid w2. clear Hcreate.
  apply sdk_call_ok_inv in Htoken. destruct Htoken as [_ Htoken].
  unfold ret in Htoken. inversion Htoken; subst idToken w2'. clear Htoken.
  unfold modify in Hset. inversion Hset; subst w2''. clear Hset.
  apply sdk_call_ok_inv in Hdoc. destruct Hdoc as [_ Hdoc].
  unfold modify in Hdoc. inversion Hdoc; subst w4. clear Hdoc.
  exists inviterUid, w1, w3, code. split; [exact Hl |].
  split; [rewrite <- Hacc; exact Hused |].
  split.
  - rewrite <- Hgen. f_equal. unfold signed_up, log, set_accounts, set_calls, set_token.
    simpl. rewrite length_app. simpl. f_equal. do 2 f_equal. lia.
  - rewrite <- Hacc. cbv zeta.
    destruct inviterUid as [inviter|]; [destruct (truthy inviter) eqn:Hi |].
    + assert (Hor : or_null (Some inviter) = Some inviter)
        by (unfold or_null; simpl; now rewrite Hi).
      rewrite Hor in *.
      apply sdk_call_ok_inv in H. destruct H as [_ H].
      unfold modify in H. inversion H; subst. reflexivity.
    + assert (Hor : or_null (Some inviter) = None)
        by (unfold or_null; simpl; now rewrite Hi).
      rewrite Hor in *.
      inversion H; subst. reflexivity.
    + inversion H; subst. reflexivity.
Qed.

End RegisterRuns.

(** ** Collections *)

Lemma taken_true (code : string) (w : World) :
  taken code w = true ->
  exists id d, In (id, d) (users w) /\ UserDoc.inviteCode d = code.
Proof.
  unfold taken, where_inviteCode. intros H.
  destruct (filter _ (users w)) as [|[id d] rest] eqn:Hf; [discriminate |].
  assert (Hin : In (id, d) (filter (fun d => String.eqb (UserDoc.inviteCode (snd d)) code)
                                   (users w))) by (rewrite Hf; left; reflexivity).
  apply filter_In in Hin. destruct Hin as [Hin Heq].
  apply String.eqb_eq in Heq. eauto.
Qed.

Lemma taken_false (code : string) (w : World) :
  taken code w = false ->
  forall id d, In (id, d) (users w) -> UserDoc.inviteCode d <> code.
Proof.
  unfold taken, where_inviteCode. intros H id d Hin Heq.
  assert (Hf : In (id, d) (filter (fun d => String.eqb (UserDoc.inviteCode (snd d)) code)
                                  (users w))).
  { apply filter_In. split; [exact Hin |]. simpl. now apply String.eqb_eq. }
  destruct (filter _ (users w)); [contradiction | discriminate].
Qed.

(** The first element of a filtered list is the first element of the list
    that passes the filter. *)
Lemma filter_first {A} (p : A -> bool) (l : list A) : forall (x : A) (rest : list A),
  filter p l = x :: rest ->
  exists before after,
    l = (before ++ x :: after)%list
    /\ p x = true
    /\ (forall y, In y before -> p y = false).
Proof.
  induction l as [|a l IH]; intros x rest H; [discriminate |].
  simpl in H. destruct (p a) eqn:Hp.
  - inversion H; subst. exists [], l. simpl. repeat split; auto. contradiction.
  - destruct (IH _ _ H) as [before [after [-> [Hx Hb]]]].
    exists (a :: before), after. simpl. repeat split; auto.
    intros y [<- | Hy]; auto.
Qed.

Lemma get_doc_set_doc (id : string) (d : UserDoc.t) (c : list (string * UserDoc.t)) :
  get_doc id (set_doc id d c) = Some d.
Proof.
  induction c as [|[k v] c IH]; simpl.
  - now rewrite String.eqb_refl.
  - destruct (String.eqb k id) eqn:Hk; simpl.
    + now rewrite String.eqb_refl.
    + now rewrite Hk.
Qed.

Lemma In_set_doc (id : string) (d : UserDoc.t) (c : list (string * UserDoc.t)) :
  forall x, In x (set_doc id d c) -> x = (id, d) \/ In x c.
Proof.
  induction c as [|[k v] c IH]; simpl; intros x H.
  - destruct H as [<- | []]. now left.
  - destruct (String.eqb k id); simpl in H.
    + destruct H as [<- | H]; auto.
    + destruct H as [<- | H]; auto. destruct (IH _ H); auto.
Qed.


Lemma truthy_nonempty (s : string) : truthy s = true <-> s <> "".
Proof. destruct s; simpl; split; intros; try discriminate; try congruence; auto. Qed.

(** ** What a successful [register] leaves behind *)

Section RegisterEffects.

Variable env : Env.

Lemma register_ok_effects (email password : string) (inviteCode : option string)
      (w w' : World) :
  register env email password inviteCode w = (Ok tt, w') ->
  exists (inviterUid : option string) (lookup : list Op) (first : string)
         (more : list string),
    let uid := fresh_uid env (length (accounts w)) in
    let code := last more first in
    let d := new_user_doc email code (or_null inviterUid) in
    ((truthy_opt inviteCode = false /\ inviterUid = None /\ lookup = [])
     \/ (exists c d rest,
           inviteCode = Some c /\ truthy c = true
           /\ where_inviteCode (js_toUpperCase env c) (users w) = d :: rest
           /\ inviterUid = Some (fst d)
           /\ lookup = [check_op (js_toUpperCase env c)]))
    /\ length more <= 10
    /\ (random_ok env -> Forall (fun c => code_shape 6 c = true) (first :: more))
    /\ users w' = set_doc uid d (users w)
    /\ accounts w' = (accounts w ++ [mkAccount email password uid])%list
    /\ invites w' = match or_null inviterUid with
                    | Some inviter => (invites w ++ [new_invite inviter uid])%list
                    | None => invites w
                    end
    /\ calls w' = (calls w ++ lookup
                  ++ [Op_createUserWithEmailAndPassword email password;
                      Op_getIdToken uid]
                  ++ map check_op (first :: more)
                  ++ [Op_setDoc "users" uid d]
                  ++ match or_null inviterUid with
                     | Some inviter => [Op_addDoc "invites" (new_invite inviter uid)]
                     | None => []
                     end)%list.
Proof.
  intros H. apply register_ok_inv in H.
  destruct H as [inviterUid [w1 [w3 [code [Hl [Hused [Hgen Hw']]]]]]].
  apply generateUniqueInviteCode_spec in Hgen.
  destruct Hgen as [first [more [Hlen [Hw3 [_ [Hshape [Hcode _]]]]]]].
  cbv zeta in Hw'. subst code.
  exists inviterUid,
         (match inviteCode with
          | Some c => if truthy c then [check_op (js_toUpperCase env c)] else []
          | None => []
          end), first, more.
  cbv zeta.
  assert (Hw1 : users w1 = users w /\ accounts w1 = accounts w
                /\ invites w1 = invites w
                /\ calls w1 = app (calls w) match inviteCode with
                                         | Some c => if truthy c
                                                     then [check_op (js_toUpperCase env c)]
                                                     else []
                                         | None => []
                                         end).
  { destruct Hl as [[Hno [_ ->]] | [c [d [rest [-> [Hc [_ [_ ->]]]]]]]].
    - repeat split. destruct inviteCode as [c|]; simpl in *;
        [rewrite Hno |]; now rewrite app_nil_r.
    - rewrite Hc. repeat split. }
  destruct Hw1 as [Hu [Ha [Hi Hc]]].
  split.
  { destruct Hl as [[Hno [-> _]] | [c [d [rest [-> [Ht [Hq [-> _]]]]]]]].
    - left. repeat split; auto.
      destruct inviteCode as [c|]; simpl in *; [now rewrite Hno | reflexivity].
    - right. exists c, d, rest. rewrite Ht. auto. }
  split; [exact Hlen |].
  split; [exact Hshape |].
  subst w3.
  destruct (or_null inviterUid) as [inviter|]; subst w';
    unfold invite_added, user_written, probed_all, signed_up, log;
    cbn [users accounts invites calls set_users set_invites set_accounts
         set_token set_calls set_rand_pos];
    rewrite ?Hu, ?Ha, ?Hi, ?Hc; repeat split;
    rewrite <- ?app_assoc; cbn [app]; reflexivity.
Qed.

End RegisterEffects.

(** ** The unique invite code *)

Section UniqueCode.

Variable env : Env.

Lemma removelast_last_In {A} (l : list A) (d x : A) :
  In x (d :: l) -> In x (removelast (d :: l)) \/ x = last l d.
Proof.
  revert d. induction l as [|a l IH]; intros d H.
  - destruct H as [<- | []]. right. reflexivity.
  - change (removelast (d :: a :: l)) with (d :: removelast (a :: l)).
    rewrite last_cons_default.
    destruct H as [<- | H]; [left; left; reflexivity |].
    destruct (IH a H) as [Hin | ->]; [left; right; exact Hin | right; reflexivity].
Qed.

(** C1, amended: the code a successful call of [generateUniqueInviteCode]
    returns does not equal the [inviteCode] field of any user document of the
    users collection, unless all of the 11 candidates the function generated
    and checked (the first one and the 10 regenerated ones) are carried by
    some user document; the 11th, which is returned, then among them. *)
Theorem generateUniqueInviteCode_unique_unless_exhausted
        (w w' : World) (code : string) :
  generateUniqueInviteCode env w = (Ok code, w') ->
  (forall id d, In (id, d) (users w) -> UserDoc.inviteCode d <> code)
  \/ (exists cands : list string,
        length cands = 11
        /\ calls w' = (calls w ++ map check_op cands)%list
        /\ last cands "" = code
        /\ forall c, In c cands ->
                     exists id d, In (id, d) (users w) /\ UserDoc.inviteCode d = c).
Proof.
  intros Hrun. apply generateUniqueInviteCode_spec in Hrun.
  destruct Hrun as [first [more [Hlen [Hw' [Hall [_ [Hcode Hstop]]]]]]].
  destruct (taken code w) eqn:Htaken.
  - right. destruct Hstop as [Hfree | Hfull]; [congruence |].
    exists (first :: more). repeat split.
    + simpl. now rewrite Hfull.
    + rewrite Hw'. reflexivity.
    + rewrite last_cons_default. now symmetry.
    + intros c Hc. apply taken_true.
      apply removelast_last_In in Hc. destruct Hc as [Hc | ->].
      * rewrite Forall_forall in Hall. now apply Hall.
      * now rewrite <- Hcode.
  - left. now apply taken_false.
Qed.

(** C9: [generateUniqueInviteCode] always terminates.  Whatever the
    existence checks answer, the loop runs at most 10 iterations, the function
    issues at most 11 existence checks (one per candidate) and nothing else,
    and it returns a code unless the vendor service rejected a check; a code
    that is returned although it is taken is returned after exactly 10
    iterations. *)
Theorem generateUniqueInviteCode_terminates (w : World) :
  exists (r : Result string) (w' : World) (iterations : nat) (cands : list string),
    generateUniqueInviteCode env w = (r, w')
    /\ iterations <= 10
    /\ length cands = S iterations
    /\ calls w' = (calls w ++ map check_op cands)%list
    /\ rand_pos w' = 6 * S iterations + rand_pos w
    /\ match r with
       | Ok code => last cands "" = code /\ (taken code w = true -> iterations = 10)
       | Throw e => fault env (length (calls w) + iterations) = Some e
       end.
Proof.
  destruct (generateUniqueInviteCode env w) as [r w'] eqn:Hrun.
  apply generateUniqueInviteCode_spec in Hrun.
  destruct Hrun as [first [more [Hlen [Hw' [_ [_ Hres]]]]]].
  exists r, w', (length more), (first :: more). repeat split; auto.
  - rewrite Hw'. reflexivity.
  - rewrite Hw'. reflexivity.
  - destruct r as [code|e]; [| exact Hres].
    destruct Hres as [Hcode Hstop]. split.
    + rewrite last_cons_default. now symmetry.
    + intros Htaken. destruct Hstop; congruence.
Qed.


(** The loop leaves the backend and the React state alone. *)
Lemma generateUniqueInviteCode_frame (w w' : World) r :
  generateUniqueInviteCode env w = (r, w') ->
  users w' = users w /\ invites w' = invites w /\ accounts w' = accounts w
  /\ token w' = token w.
Proof.
  intros Hrun. apply generateUniqueInviteCode_spec in Hrun.
  destruct Hrun as [first [more [_ [-> _]]]]. repeat split.
Qed.

End UniqueCode.

(** C1, as stated, is refuted: every draw being 0, each of the 11 candidates
    is ['MPAAAAAA'], which Ana's document carries, and it is returned. *)
Lemma generateUniqueInviteCode_returns_taken_code :
  fst (generateUniqueInviteCode env_zero world_two) = Ok "MPAAAAAA"
  /\ In ("ana", ana_doc) (users world_two)
  /\ UserDoc.inviteCode ana_doc = "MPAAAAAA".
Proof.
  split; [vm_compute; reflexivity |]. split; [left; reflexivity | reflexivity].
Qed.

Lemma generateUniqueInviteCode_unique_unless_exhausted_witness :
  (forall id d, In (id, d) (users world_two) -> UserDoc.inviteCode d <> "MPGHIJKL")
  \/ (exists cands : list string,
        length cands = 11
        /\ calls (snd (generateUniqueInviteCode env_walk world_two))
           = (calls world_two ++ map check_op cands)%list
        /\ last cands "" = "MPGHIJKL"
        /\ forall c, In c cands ->
                     exists id d, In (id, d) (users world_two)
                                  /\ UserDoc.inviteCode d = c).
Proof.
  apply (generateUniqueInviteCode_unique_unless_exhausted env_walk world_two
           (snd (generateUniqueInviteCode env_walk world_two)) "MPGHIJKL").
  vm_compute. reflexivity.
Defined.

Lemma generateUniqueInviteCode_terminates_witness :
  exists (r : Result string) (w' : World) (iterations : nat) (cands : list string),
    generateUniqueInviteCode env_zero world_two = (r, w')
    /\ iterations <= 10
    /\ length cands = S iterations
    /\ calls w' = (calls world_two ++ map check_op cands)%list
    /\ rand_pos w' = 6 * S iterations + rand_pos world_two
    /\ match r with
       | Ok code => last cands "" = code /\ (taken code world_two = true -> iterations = 10)
       | Throw e => fault env_zero (length (calls world_two) + iterations) = Some e
       end.
Proof. apply (generateUniqueInviteCode_terminates env_zero world_two). Defined.

(** With every candidate taken the function still returns, after 11 checks
    and 66 draws. *)
Example generateUniqueInviteCode_all_taken :
  fst (generateUniqueInviteCode env_zero world_two) = Ok "MPAAAAAA"
  /\ calls (snd (generateUniqueInviteCode env_zero world_two))
     = repeat (check_op "MPAAAAAA") 11
  /\ rand_pos (snd (generateUniqueInviteCode env_zero world_two)) = 66.
Proof. vm_compute. auto. Qed.

(** ** The documents [register] writes *)

Section RegisterWrites.

Variable env : Env.

Lemma where_inviteCode_first (code : string) (c : list (string * UserDoc.t))
      (d : string * UserDoc.t) (rest : list (string * UserDoc.t)) :
  where_inviteCode code c = d :: rest ->
  first_match code c (fst d) (snd d).
Proof.
  intros H. apply filter_first in H.
  destruct H as [before [after [-> [Hd Hb]]]].
  exists before, after. destruct d as [id doc]. simpl in *.
  repeat split.
  - now apply String.eqb_eq.
  - intros x Hx Heq. apply Hb in Hx. apply String.eqb_eq in Heq. congruence.
Qed.

Lemma first_match_In (code : string) (c : list (string * UserDoc.t))
      (id : string) (d : UserDoc.t) :
  first_match code c id d -> In (id, d) c.
Proof.
  intros [before [after [-> _]]]. apply in_or_app. right. left. reflexivity.
Qed.

Lemma filter_is_addDoc_checks (cands : list string) :
  filter is_addDoc (map check_op cands) = [].
Proof. induction cands; simpl; auto. Qed.


(** The inviter [register] found, when an invite code was supplied and the
    call succeeded, is the first match and has a truthy id. *)
Lemma register_inviter (w : World) (c : string) (d : string * UserDoc.t)
      (rest : list (string * UserDoc.t)) :
  ids_ok w ->
  where_inviteCode (js_toUpperCase env c) (users w) = d :: rest ->
  first_match (js_toUpperCase env c) (users w) (fst d) (snd d)
  /\ or_null (Some (fst d)) = Some (fst d).
Proof.
  intros Hids Hq. pose proof (where_inviteCode_first _ _ _ _ Hq) as Hfirst.
  split; [exact Hfirst |].
  apply first_match_In in Hfirst. apply Hids in Hfirst.
  apply truthy_nonempty in Hfirst. unfold or_null. simpl. now rewrite Hfirst.
Qed.

(** C3: a successful [register] with an invite code that matched a user
    writes exactly one invite record: [inviterId] is the document id of the
    (first) matched user, [invitedId] the new user's uid, [level] 1 and
    [status] ['pending'].  Without an invite code no invite record is
    written. *)
Theorem register_writes_invite_record
        (email password : string) (inviteCode : option string) (w w' : World) :
  ids_ok w ->
  register env email password inviteCode w = (Ok tt, w') ->
  let uid := fresh_uid env (length (accounts w)) in
  (forall c, inviteCode = Some c -> c <> "" ->
     exists inviterId inviterDoc,
       first_match (js_toUpperCase env c) (users w) inviterId inviterDoc
       /\ invites w'
          = (invites w ++ [InviteDoc.mk inviterId uid 1 "pending" serverTimestamp])%list
       /\ filter is_addDoc (calls w')
          = (filter is_addDoc (calls w)
             ++ [Op_addDoc "invites"
                   (InviteDoc.mk inviterId uid 1 "pending" serverTimestamp)])%list)
  /\ (inviteCode = None \/ inviteCode = Some "" ->
      invites w' = invites w
      /\ filter is_addDoc (calls w') = filter is_addDoc (calls w)).
Proof.
  intros Hids Hrun uid. apply register_ok_effects in Hrun.
  destruct Hrun as [inviterUid [lookup [first [more Hrun]]]]. cbv zeta in Hrun.
  destruct Hrun as [Hl [_ [_ [_ [_ [Hinv Hcalls]]]]]].
  split.
  - intros c -> Hc.
    destruct Hl as [[Hno _] | [c' [d [rest [Heq [_ [Hq [-> ->]]]]]]]].
    { simpl in Hno. apply truthy_nonempty in Hc. congruence. }
    inversion Heq; subst c'. clear Heq.
    destruct (register_inviter w c d rest Hids Hq) as [Hfirst Hor].
    rewrite Hor in Hinv, Hcalls.
    exists (fst d), (snd d). split; [exact Hfirst |]. split; [exact Hinv |].
    rewrite Hcalls. rewrite !filter_app, filter_is_addDoc_checks. reflexivity.
  - intros Hnone.
    destruct Hl as [[_ [-> ->]] | [c' [d [rest [Heq [Ht _]]]]]].
    + cbn [or_null truthy_opt] in Hinv, Hcalls. split; [exact Hinv |].
      rewrite Hcalls. rewrite !filter_app, filter_is_addDoc_checks. simpl.
      now rewrite !app_nil_r.
    + destruct Hnone as [-> | ->]; [discriminate |].
      inversion Heq; subst c'. discriminate.
Qed.


(** The [inviteCode] field of the new user's document is the code
    [generateUniqueInviteCode] returned. *)
Lemma register_stores_generated_code
      (email password : string) (inviteCode : option string) (w w' : World) :
  register env email password inviteCode w = (Ok tt, w') ->
  exists d w2 w3,
    get_doc (fresh_uid env (length (accounts w))) (users w') = Some d
    /\ generateUniqueInviteCode env w2 = (Ok (UserDoc.inviteCode d), w3).
Proof.
  intros Hrun. apply register_ok_inv in Hrun.
  destruct Hrun as [inviterUid [w1 [w3 [code [_ [_ [Hgen Hw']]]]]]].
  cbv zeta in Hw'.
  exists (new_user_doc email code (or_null inviterUid)),
         (signed_up env email password w1), w3.
  split; [| exact Hgen].
  subst w'. destruct (or_null inviterUid); apply get_doc_set_doc.
Qed.

End RegisterWrites.

Lemma ids_ok_world_two : ids_ok world_two.
Proof.
  intros id d [H | [H | []]]; inversion H; subst; discriminate.
Qed.

Lemma caio_registers_ok : caio_registers = (Ok tt, snd caio_registers).
Proof. vm_compute. reflexivity. Qed.

Lemma register_writes_invite_record_witness :
  let uid := fresh_uid env_walk (length (accounts world_two)) in
  (forall c, Some "mpaaaaaa" = Some c -> c <> "" ->
     exists inviterId inviterDoc,
       first_match (js_toUpperCase env_walk c) (users world_two) inviterId inviterDoc
       /\ invites (snd caio_registers)
          = (invites world_two
             ++ [InviteDoc.mk inviterId uid 1 "pending" serverTimestamp])%list
       /\ filter is_addDoc (calls (snd caio_registers))
          = (filter is_addDoc (calls world_two)
             ++ [Op_addDoc "invites"
                   (InviteDoc.mk inviterId uid 1 "pending" serverTimestamp)])%list)
  /\ (Some "mpaaaaaa" = None \/ Some "mpaaaaaa" = Some "" ->
      invites (snd caio_registers) = invites world_two
      /\ filter is_addDoc (calls (snd caio_registers))
         = filter is_addDoc (calls world_two)).
Proof.
  apply (register_writes_invite_record env_walk "caio@monety.app" "pw1234"
           (Some "mpaaaaaa") world_two (snd caio_registers)).
  - exact ids_ok_world_two.
  - exact caio_registers_ok.
Defined.


(** Outside ASCII the lookup searches for what the case mapping gives:
    ['mpaaaaaı'], with a dotless ['ı'], finds the user whose code is
    ['MPAAAAAI']. *)
Example register_with_dotless_i :
  let w := set_users [("ivo", new_user_doc "ivo@monety.app" "MPAAAAAI" None)]
                     empty_world in
  let w' := snd (register env_walk "caio@monety.app" "pw1234" (Some "mpaaaaaı") w) in
  fst (register env_walk "caio@monety.app" "pw1234" (Some "mpaaaaaı") w) = Ok tt
  /\ nth_error (calls w') 0 = Some (Op_getDocs "users" "inviteCode" "MPAAAAAI")
  /\ invites w' = [InviteDoc.mk "ivo" "uid-0" 1 "pending" serverTimestamp].
Proof. vm_compute. auto. Qed.

(** Caio's registration, in full: the invite record names Ana as inviter,
    and the document carries the second candidate, the first one being
    Bia's code. *)
Example caio_registers_run :
  fst caio_registers = Ok tt
  /\ invites (snd caio_registers)
     = [InviteDoc.mk "ana" "uid-2" 1 "pending" serverTimestamp]
  /\ get_doc "uid-2" (users (snd caio_registers))
     = Some (new_user_doc "caio@monety.app" "MPGHIJKL" (Some "ana"))
  /\ calls (snd caio_registers)
     = [Op_getDocs "users" "inviteCode" "MPAAAAAA";
        Op_createUserWithEmailAndPassword "caio@monety.app" "pw1234";
        Op_getIdToken "uid-2";
        Op_getDocs "users" "inviteCode" "MPABCDEF";
        Op_getDocs "users" "inviteCode" "MPGHIJKL";
        Op_setDoc "users" "uid-2"
                  (new_user_doc "caio@monety.app" "MPGHIJKL" (Some "ana"));
        Op_addDoc "invites" (InviteDoc.mk "ana" "uid-2" 1 "pending" serverTimestamp)].
Proof. vm_compute. auto. Qed.

(** ** The invite code is a short alphanumeric token *)


Lemma unit_double_draw_for_index (k : nat) :
  k < 36 -> unit_double (draw_for_index k).
Proof.
  intros Hk. unfold unit_double, draw_for_index. cbn [mantissa exponent].
  change (- -53)%Z with 53%Z.
  assert (Hlo : (0 <= (2 * Z.of_nat k + 1) * 2 ^ 52 / 36)%Z)
    by (apply Z.div_pos; lia).
  assert (Hhi : ((2 * Z.of_nat k + 1) * 2 ^ 52 / 36 < 2 ^ 53)%Z)
    by (apply Z.div_lt_upper_bound; [lia |];
        change (2 ^ 53)%Z with (2 * 2 ^ 52)%Z; lia).
  lia.
Qed.

Lemma random_index_draw_for_index (k : nat) :
  k < 36 -> random_index (draw_for_index k) = Z.of_nat k.
Proof.
  intros Hk.
  assert (Hall : forallb (fun i => Z.eqb (random_index (draw_for_index i)) (Z.of_nat i))
                         (seq 0 36) = true) by (vm_compute; reflexivity).
  rewrite forallb_forall in Hall. apply Z.eqb_eq. apply Hall. apply in_seq. lia.
Qed.



(** The codes of the two sample environments. *)
Example generateInviteCode_samples :
  fst (generateInviteCode env_zero empty_world) = Ok "MPAAAAAA"
  /\ fst (generateInviteCode env_walk empty_world) = Ok "MPABCDEF"
  /\ fst (generateUniqueInviteCode env_walk world_two) = Ok "MPGHIJKL".
Proof. vm_compute. auto. Qed.

(** ** The fields [register] initialises *)

Lemma users_grow_same (P : UserDoc.t -> Prop) (w w' : World) :
  users w' = users w -> users_grow P w w'.
Proof. intros Heq id d H. left. now rewrite <- Heq. Qed.

Lemma users_grow_refl (P : UserDoc.t -> Prop) (w : World) : users_grow P w w.
Proof. now apply users_grow_same. Qed.

Lemma users_grow_trans (P : UserDoc.t -> Prop) (a b c : World) :
  users_grow P a b -> users_grow P b c -> users_grow P a c.
Proof.
  intros Hab Hbc id d H. destruct (Hbc _ _ H) as [Hb | Hp]; [auto | now right].
Qed.

(** C10: every user document [register] creates has [balance] 0,
    [totalEarned] 0, [totalWithdrawn] 0 and [role] ['user'], with or without
    an invite code: whatever the outcome of the call, a user document that was
    not there before is initialised so, and on success the new user's document
    exists. *)
Theorem register_initialises_user_document
        (env : Env) (email password : string) (inviteCode : option string)
        (w w' : World) (r : Result unit) :
  register env email password inviteCode w = (r, w') ->
  (forall id d, In (id, d) (users w') -> In (id, d) (users w) \/ initialised d)
  /\ (r = Ok tt ->
      exists d,
        get_doc (fresh_uid env (length (accounts w))) (users w') = Some d
        /\ initialised d).
Proof.
  intros Hrun. split.
  - revert Hrun. apply (preserves_register (users_grow initialised)).
    + apply users_grow_refl.
    + apply users_grow_trans.
    + intros op w0 _. now apply users_grow_same.
    + intros n w0. now apply users_grow_same.
    + intros t w0. now apply users_grow_same.
    + intros a w0. now apply users_grow_same.
    + intros i w0. now apply users_grow_same.
    + intros uid em code inviter w0 id d Hin. simpl in Hin.
      apply In_set_doc in Hin. destruct Hin as [Heq | Hin]; [| now left].
      right. inversion Heq; subst. repeat split.
  - intros ->. apply register_ok_effects in Hrun.
    destruct Hrun as [inviterUid [lookup [first [more Hrun]]]]. cbv zeta in Hrun.
    destruct Hrun as [_ [_ [_ [Husers _]]]].
    eexists. split; [rewrite Husers; apply get_doc_set_doc |]. repeat split.
Qed.

Lemma register_initialises_user_document_witness :
  (forall id d,
      In (id, d) (users (snd caio_registers)) ->
      In (id, d) (users world_two) \/ initialised d)
  /\ (fst caio_registers = Ok tt ->
      exists d,
        get_doc (fresh_uid env_walk (length (accounts world_two)))
                (users (snd caio_registers)) = Some d
        /\ initialised d).
Proof.
  apply (register_initialises_user_document env_walk "caio@monety.app" "pw1234"
           (Some "mpaaaaaa") world_two (snd caio_registers) (fst caio_registers)).
  vm_compute. reflexivity.
Defined.

(** ** Registration with an unknown invite code *)

Lemma where_inviteCode_none (code : string) (c : list (string * UserDoc.t)) :
  (forall id d, In (id, d) c -> UserDoc.inviteCode d <> code) ->
  where_inviteCode code c = [].
Proof.
  intros H. unfold where_inviteCode.
  destruct (filter _ c) as [|[id d] rest] eqn:Hf; [reflexivity |].
  assert (Hin : In (id, d) (filter (fun d => String.eqb (UserDoc.inviteCode (snd d)) code) c))
    by (rewrite Hf; left; reflexivity).
  apply filter_In in Hin. destruct Hin as [Hin Heq].
  apply String.eqb_eq in Heq. exfalso. exact (H id d Hin Heq).
Qed.

(** C4, as the code has it: when the invite code is not the empty string
    and its upper-case form is the [inviteCode] of no user, [register] throws
    ['Código de convite inválido'] and writes nothing: no account is created,
    no user document is written, no invite record is added.  The only
    operation issued is the lookup, a read. *)
Theorem register_rejects_unknown_invite_code
        (env : Env) (email password c : string) (w : World) :
  c <> "" ->
  (forall id d, In (id, d) (users w) ->
                UserDoc.inviteCode d <> js_toUpperCase env c) ->
  fault env (length (calls w)) = None ->
  exists w',
    register env email password (Some c) w
    = (Throw (new_Error "Código de convite inválido"), w')
    /\ users w' = users w /\ invites w' = invites w /\ accounts w' = accounts w
    /\ token w' = token w /\ user w' = user w
    /\ calls w'
       = (calls w ++ [Op_getDocs "users" "inviteCode" (js_toUpperCase env c)])%list
    /\ is_write (Op_getDocs "users" "inviteCode" (js_toUpperCase env c)) = false.
Proof.
  intros Hc Hnone Hfault.
  exists (log (Op_getDocs "users" "inviteCode" (js_toUpperCase env c)) w).
  split; [| repeat split].
  unfold register, try_catch, bind, getDocs_users_where_inviteCode, sdk_call, get.
  apply truthy_nonempty in Hc. rewrite Hc, Hfault.
  change (users (log (Op_getDocs "users" "inviteCode" (js_toUpperCase env c)) w))
    with (users w).
  rewrite (where_inviteCode_none _ _ Hnone). reflexivity.
Qed.

Lemma register_rejects_unknown_invite_code_witness :
  exists w',
    register env_walk "caio@monety.app" "pw1234" (Some "mpzzzzzz") world_two
    = (Throw (new_Error "Código de convite inválido"), w')
    /\ users w' = users world_two /\ invites w' = invites world_two
    /\ accounts w' = accounts world_two
    /\ token w' = token world_two /\ user w' = user world_two
    /\ calls w'
       = (calls world_two
          ++ [Op_getDocs "users" "inviteCode"
                         (js_toUpperCase env_walk "mpzzzzzz")])%list
    /\ is_write (Op_getDocs "users" "inviteCode"
                            (js_toUpperCase env_walk "mpzzzzzz")) = false.
Proof.
  apply (register_rejects_unknown_invite_code env_walk "caio@monety.app" "pw1234"
           "mpzzzzzz" world_two).
  - discriminate.
  - intros id d [H | [H | []]]; inversion H; subst; vm_compute; discriminate.
  - reflexivity.
Defined.

(** C4, as the claim words it, fails at the empty string: it is the
    [inviteCode] of no user, in upper case or not, yet [if (inviteCode)]
    takes it for no code at all, and [register] creates the account, writes
    the user document and returns. *)
Lemma register_accepts_empty_invite_code :
  (forall id d, In (id, d) (users world_two) ->
                UserDoc.inviteCode d <> js_toUpperCase env_walk ""
                /\ UserDoc.inviteCode d <> "")
  /\ (forall n, fault env_walk n = None)
  /\ fst (register env_walk "caio@monety.app" "pw1234" (Some "") world_two) = Ok tt
  /\ accounts (snd (register env_walk "caio@monety.app" "pw1234" (Some "") world_two))
     = (accounts world_two ++ [mkAccount "caio@monety.app" "pw1234" "uid-2"])%list
  /\ get_doc "uid-2"
       (users (snd (register env_walk "caio@monety.app" "pw1234" (Some "") world_two)))
     = Some (new_user_doc "caio@monety.app" "MPGHIJKL" None)
  /\ calls (snd (register env_walk "caio@monety.app" "pw1234" (Some "") world_two))
     = [Op_createUserWithEmailAndPassword "caio@monety.app" "pw1234";
        Op_getIdToken "uid-2";
        Op_getDocs "users" "inviteCode" "MPABCDEF";
        Op_getDocs "users" "inviteCode" "MPGHIJKL";
        Op_setDoc "users" "uid-2" (new_user_doc "caio@monety.app" "MPGHIJKL" None)].
Proof.
  split.
  { intros id d [H | [H | []]]; inversion H; subst; vm_compute;
      split; discriminate. }
  split; [reflexivity |].
  vm_compute. auto.
Qed.

(** ** Registration without an invite code *)

Section NoInviteCode.

Variable env : Env.

Lemma sdk_call_no_fault {A} (op : Op) (body : nat -> M A) (w : World) :
  fault env (length (calls w)) = None ->
  sdk_call env op body w = body (length (calls w)) (log op w).
Proof. unfold sdk_call. now intros ->. Qed.





End NoInviteCode.


(** ** The channel of each operation *)

Lemma sdk_only_same (w w' : World) : calls w' = calls w -> sdk_only w w'.
Proof. intros Heq. exists []. rewrite app_nil_r. split; [exact Heq | constructor]. Qed.

Lemma sdk_only_trans (a b c : World) : sdk_only a b -> sdk_only b c -> sdk_only a c.
Proof.
  intros [d1 [H1 F1]] [d2 [H2 F2]]. exists (d1 ++ d2)%list. split.
  - rewrite H2, H1. now rewrite app_assoc.
  - apply Forall_app. auto.
Qed.

Lemma sdk_only_log (op : Op) (w : World) :
  channel op = VendorSDK -> sdk_only w (log op w).
Proof. intros Hop. exists [op]. split; [reflexivity | auto]. Qed.

Section Channels.

Variable env : Env.

Lemma register_sdk_only (email password : string) (inviteCode : option string)
      (w : World) :
  sdk_only w (snd (register env email password inviteCode w)).
Proof.
  destruct (register env email password inviteCode w) as [r w'] eqn:Hrun.
  revert Hrun. apply (preserves_register sdk_only);
    try (intros; now apply sdk_only_same).
  - apply sdk_only_trans.
  - intros op w0 Hop. now apply sdk_only_log.
Qed.

Lemma login_sdk_only (email password : string) (w : World) :
  sdk_only w (snd (login env email password w)).
Proof.
  destruct (login env email password w) as [r w'] eqn:Hrun.
  revert Hrun. apply (preserves_login sdk_only);
    try (intros; now apply sdk_only_same).
  - apply sdk_only_trans.
  - intros op w0 Hop. now apply sdk_only_log.
Qed.

Lemma fetchStats_run (w : World) :
  let w' := snd (fetchStats env w) in
  calls w' = (calls w ++ match token w with
                         | Some t => if truthy t then [stats_request t] else []
                         | None => []
                         end)%list
  /\ (stats w' = stats w
      \/ exists resp,
           http env (length (calls w)) = Fetch_resolves resp
           /\ resp_json resp = Some (stats w'))
  /\ users w' = users w /\ invites w' = invites w /\ accounts w' = accounts w.
Proof.
  cbv zeta. destruct (fetchStats env w) as [r w'] eqn:Hrun. cbn [snd].
  unfold fetchStats, bind, get in Hrun.
  destruct (token w) as [t|]; [destruct (truthy t); cbn [negb] in Hrun |].
  2, 3: inversion Hrun; subst; rewrite app_nil_r; auto 10.
  unfold try_finally, try_catch, bind, fetch, log, response_json, modify, emit, ret, throw
    in Hrun.
  cbn [calls set_loadingStats set_calls] in Hrun.
  destruct (http env (length (calls w))) as [e|resp] eqn:Hhttp.
  - inversion Hrun; subst. repeat split; auto.
  - destruct (resp_content_type resp) as [contentType|];
      [| inversion Hrun; subst; repeat split; auto].
    destruct (resp_ok resp && truthy contentType
              && includes contentType "application/json");
      [| inversion Hrun; subst; repeat split; auto].
    destruct (resp_json resp) as [data|] eqn:Hjson;
      inversion Hrun; subst; repeat split; auto.
    right. exists resp. auto.
Qed.

End Channels.

(** C2, amended: every operation that [register], [login] and the
    invite-code generator issue goes through the vendor SDK; the home page,
    however, obtains the today-earnings and new-invites statistics through an
    HTTP request, [fetch('/api/stats/today')] with the token as bearer
    authorization (and issues nothing when there is no token): the statistics
    it holds afterwards are the ones it had or the JSON body of that
    response. *)
Theorem business_state_channels (env : Env) :
  (forall email password inviteCode w,
      sdk_only w (snd (register env email password inviteCode w)))
  /\ (forall email password w, sdk_only w (snd (login env email password w)))
  /\ (forall w,
        let w' := snd (fetchStats env w) in
        calls w' = (calls w ++ match token w with
                               | Some t =>
                                   if truthy t
                                   then [Op_fetch "/api/stats/today"
                                                  [("Authorization", ("Bearer " ++ t)%string)]]
                                   else []
                               | None => []
                               end)%list
        /\ (stats w' = stats w
            \/ exists resp,
                 http env (length (calls w)) = Fetch_resolves resp
                 /\ resp_json resp = Some (stats w'))).
Proof.
  split; [| split].
  - intros. apply register_sdk_only.
  - intros. apply login_sdk_only.
  - intros w. destruct (fetchStats_run env w) as [Hcalls [Hstats _]]. split; assumption.
Qed.

(** C2, as stated, is refuted: with a token, the home page issues an
    operation that does not go through the vendor SDK, and what it renders
    afterwards is the body of the HTTP response. *)
Lemma fetchStats_not_through_vendor_sdk :
  ~ Forall (fun o => channel o = VendorSDK)
           (calls (snd (fetchStats env_walk world_logged_in)))
  /\ calls (snd (fetchStats env_walk world_logged_in))
     = [Op_fetch "/api/stats/today" [("Authorization", "Bearer token")]]
  /\ stats (snd (fetchStats env_walk world_logged_in)) = mkStats (5 # 2) 3.
Proof.
  split; [| split; vm_compute; reflexivity].
  intros H. vm_compute in H. inversion H as [| op rest Hop _]. discriminate Hop.
Qed.

(** ** Errors of the vendor SDK and the messages shown *)

Section ErrorMessages.

Variable env : Env.

(** [login] turns a rejection with code ['auth/invalid-credential'] or
    ['auth/wrong-password'] into ['Email ou senha inválidos'] and rethrows
    every other error as it is. *)
Lemma login_maps_rejection (email password : string) (w : World) (e : JsError) :
  fault env (length (calls w)) = Some e ->
  login env email password w
  = (Throw (if code_is e "auth/invalid-credential" || code_is e "auth/wrong-password"
            then new_Error "Email ou senha inválidos"
            else e),
     log (Op_signInWithEmailAndPassword email password) w).
Proof.
  intros Hfault.
  unfold login, try_catch, bind, signInWithEmailAndPassword, sdk_call.
  rewrite Hfault.
  destruct (code_is e "auth/invalid-credential" || code_is e "auth/wrong-password");
    reflexivity.
Qed.

(** The same when the identity provider answers a bad email/password pair. *)
Lemma login_maps_bad_credentials (email password : string) (w : World) :
  fault env (length (calls w)) = None ->
  find (fun a => String.eqb (acc_email a) email
                 && String.eqb (acc_password a) password) (accounts w) = None ->
  let e := reject_signin env email password in
  login env email password w
  = (Throw (if code_is e "auth/invalid-credential" || code_is e "auth/wrong-password"
            then new_Error "Email ou senha inválidos"
            else e),
     log (Op_signInWithEmailAndPassword email password) w).
Proof.
  intros Hfault Hfind e.
  unfold login, try_catch, signInWithEmailAndPassword, sdk_call.
  unfold bind, get.
  rewrite Hfault. cbn [accounts log set_calls]. rewrite Hfind.
  unfold throw. fold e.
  destruct (code_is e "auth/invalid-credential" || code_is e "auth/wrong-password");
    reflexivity.
Qed.

(** [register] turns ['auth/email-already-in-use'] into
    ['Email já cadastrado'] and rethrows every other error as it is. *)
Lemma register_maps_rejection (email password : string) (w : World) (e : JsError) :
  fault env (length (calls w)) = Some e ->
  register env email password None w
  = (Throw (if code_is e "auth/email-already-in-use"
            then new_Error "Email já cadastrado"
            else e),
     log (Op_createUserWithEmailAndPassword email password) w).
Proof.
  intros Hfault.
  unfold register, try_catch.
  unfold bind at 1. unfold bind at 1. unfold ret at 1.
  unfold createUserWithEmailAndPassword, sdk_call.
  rewrite Hfault.
  destruct (code_is e "auth/email-already-in-use"); reflexivity.
Qed.

Lemma register_email_in_use (email password : string) (w : World) :
  fault env (length (calls w)) = None ->
  existsb (fun a => String.eqb (acc_email a) email) (accounts w) = true ->
  register env email password None w
  = (Throw (new_Error "Email já cadastrado"),
     log (Op_createUserWithEmailAndPassword email password) w).
Proof.
  intros Hfault Hused.
  unfold register, try_catch.
  unfold bind at 1. unfold bind at 1. unfold ret at 1.
  unfold createUserWithEmailAndPassword, sdk_call.
  rewrite Hfault. unfold bind at 1, get at 1.
  cbn [accounts log set_calls]. rewrite Hused. reflexivity.
Qed.

(** The message the [catch] block of the login page picks for an error it
    receives with a code, when the text of the error does not mention
    ['invalid-credential']. *)
Lemma errorMessage_of_code (e : JsError) :
  includes (err_message e) "invalid-credential" = false ->
  errorMessage_of e
  = if code_is e "auth/invalid-credential" then "E-mail ou senha incorretos."
    else if code_is e "auth/user-not-found" then "Usuário não encontrado."
    else if code_is e "auth/wrong-password" then "Senha incorreta."
    else if code_is e "auth/too-many-requests"
    then "Muitas tentativas falhas. Tente novamente mais tarde."
    else "Erro ao fazer login".
Proof.
  intros Hmsg. unfold errorMessage_of. rewrite Hmsg, orb_false_r. reflexivity.
Qed.

(** What the login page shows after [login] threw [e]. *)
Lemma handleSubmit_after_throw (email password : string) (w w1 : World) (e : JsError) :
  login env email password (set_loading true (set_error "" w)) = (Throw e, w1) ->
  error (snd (handleSubmit env email password w)) = errorMessage_of e.
Proof.
  intros Hlogin.
  unfold handleSubmit.
  unfold bind at 1, modify at 1. unfold bind at 1, modify at 1.
  unfold try_finally, try_catch. unfold bind at 1. rewrite Hlogin.
  reflexivity.
Qed.

(** For the two codes [login] rewrites, the page receives an error without a
    code and shows the generic message. *)
Lemma handleSubmit_masks_credential_errors
      (email password : string) (w : World) (e : JsError) :
  fault env (length (calls w)) = Some e ->
  code_is e "auth/invalid-credential" || code_is e "auth/wrong-password" = true ->
  error (snd (handleSubmit env email password w)) = "Erro ao fazer login".
Proof.
  intros Hfault Hcode.
  rewrite (handleSubmit_after_throw email password w
             (log (Op_signInWithEmailAndPassword email password)
                  (set_loading true (set_error "" w)))
             (new_Error "Email ou senha inválidos")).
  - reflexivity.
  - rewrite (login_maps_rejection email password _ e) by exact Hfault.
    now rewrite Hcode.
Qed.

(** The other codes reach the page and are shown with their message. *)
Lemma handleSubmit_shows_other_errors
      (email password : string) (w : World) (e : JsError) :
  fault env (length (calls w)) = Some e ->
  code_is e "auth/invalid-credential" || code_is e "auth/wrong-password" = false ->
  error (snd (handleSubmit env email password w)) = errorMessage_of e.
Proof.
  intros Hfault Hcode.
  apply (handleSubmit_after_throw email password w
           (log (Op_signInWithEmailAndPassword email password)
                (set_loading true (set_error "" w)))).
  rewrite (login_maps_rejection email password _ e) by exact Hfault.
  now rewrite Hcode.
Qed.

End ErrorMessages.

(** C7 at the input where the code departs from it: the identity provider
    answers a wrong password with ['auth/invalid-credential']; [login] throws
    ['Email ou senha inválidos'], an error without a code, so the login page
    shows ['Erro ao fazer login'] and not the ['E-mail ou senha incorretos.']
    its [catch] block has for that code. *)
Theorem handleSubmit_invalid_credential_message :
  fst (login env_zero "ana@monety.app" "wrong" world_two)
  = Throw (new_Error "Email ou senha inválidos")
  /\ error (snd (handleSubmit env_zero "ana@monety.app" "wrong" world_two))
     = "Erro ao fazer login"
  /\ errorMessage_of invalid_credential = "E-mail ou senha incorretos.".
Proof. vm_compute. auto. Qed.

(** * Further properties of the client *)

(** ** Invite codes and the case of letters *)

Lemma upper_ascii_idempotent (c : ascii) : upper_ascii (upper_ascii c) = upper_ascii c.
Proof. destruct c as [[] [] [] [] [] [] [] []]; reflexivity. Qed.

Lemma toUpperCase_idempotent (s : string) : toUpperCase (toUpperCase s) = toUpperCase s.
Proof.
  induction s as [|c s IH]; simpl; [reflexivity |].
  now rewrite upper_ascii_idempotent, IH.
Qed.

Lemma truthy_toUpperCase (s : string) : truthy (toUpperCase s) = truthy s.
Proof. destruct s; reflexivity. Qed.

Lemma upper_ascii_code_char (c : ascii) : is_code_char c = true -> upper_ascii c = c.
Proof. destruct c as [[] [] [] [] [] [] [] []]; simpl; intros H; try reflexivity; discriminate. Qed.

Lemma toUpperCase_all_code_chars (s : string) :
  all_chars is_code_char s = true -> toUpperCase s = s.
Proof.
  induction s as [|c s IH]; simpl; intros H; [reflexivity |].
  apply andb_true_iff in H. destruct H as [Hc Hs].
  now rewrite (upper_ascii_code_char c Hc), (IH Hs).
Qed.

Lemma upper_ascii_below_128 (c : ascii) :
  (nat_of_ascii (upper_ascii c) <? 128) = (nat_of_ascii c <? 128).
Proof. destruct c as [[] [] [] [] [] [] [] []]; reflexivity. Qed.

Lemma ascii_only_toUpperCase (s : string) :
  ascii_only (toUpperCase s) = ascii_only s.
Proof.
  induction s as [|c s IH]; [reflexivity |].
  cbn [toUpperCase ascii_only]. now rewrite upper_ascii_below_128, IH.
Qed.

Lemma js_toUpperCase_ascii (env : Env) (s : string) :
  ascii_only s = true -> js_toUpperCase env s = toUpperCase s.
Proof. unfold js_toUpperCase. now intros ->. Qed.

Lemma ascii_only_append (a b : string) :
  ascii_only (a ++ b) = ascii_only a && ascii_only b.
Proof.
  induction a as [|c a IH]; [reflexivity |].
  cbn [append ascii_only]. now rewrite IH, andb_assoc.
Qed.

Lemma ascii_only_get (s : string) : forall (n : nat) (c : ascii),
  ascii_only s = true -> String.get n s = Some c -> (nat_of_ascii c <? 128) = true.
Proof.
  induction s as [|a s IH]; intros n c Hs Hget; [discriminate |].
  cbn [ascii_only] in Hs. apply andb_true_iff in Hs. destruct Hs as [Ha Hs].
  destruct n as [|n]; cbn [String.get] in Hget.
  - now inversion Hget; subst.
  - eapply IH; eauto.
Qed.

Lemma ascii_only_charAt (s : string) (i : Z) :
  ascii_only s = true -> ascii_only (charAt s i) = true.
Proof.
  intros Hs. unfold charAt. destruct (i <? 0)%Z; [reflexivity |].
  destruct (String.get (Z.to_nat i) s) as [c|] eqn:Hget; [| reflexivity].
  cbn [ascii_only]. now rewrite (ascii_only_get s _ c Hs Hget).
Qed.

(** The generator returns characters of [chars] only, whatever the random
    source answers: its codes, and so the code a registration stores, are
    ASCII strings. *)
Lemma generateInviteCode_for_ascii (env : Env) (n : nat) :
  forall (code code' : string) (w w' : World),
    ascii_only code = true ->
    generateInviteCode_for env n code w = (Ok code', w') ->
    ascii_only code' = true.
Proof.
  induction n as [|n IH]; intros code code' w w' Hs Hrun; simpl in Hrun.
  - unfold ret in Hrun. now inversion Hrun; subst.
  - unfold bind, Math_random in Hrun. eapply IH; [| exact Hrun].
    rewrite ascii_only_append, Hs. now apply ascii_only_charAt.
Qed.

Lemma generateUniqueInviteCode_while_ascii (env : Env) (k : nat) :
  forall (code c : string) (attempts : nat) (w w' : World),
    10 - attempts <= k ->
    ascii_only code = true ->
    generateUniqueInviteCode_while env code attempts w = (Ok c, w') ->
    ascii_only c = true.
Proof.
  induction k as [|k IH]; intros code c attempts w w' Hk Hs Hrun;
    rewrite generateUniqueInviteCode_while_step, checkInviteCodeExists_run in Hrun;
    destruct (fault env (length (calls w))) as [e|]; try discriminate.
  - destruct (Nat.ltb_spec attempts 10); [lia |].
    rewrite andb_false_r in Hrun. now inversion Hrun; subst.
  - destruct (taken code w && (attempts <? 10)) eqn:Hgo;
      [| now inversion Hrun; subst].
    apply andb_true_iff in Hgo. destruct Hgo as [_ Hlt]. apply Nat.ltb_lt in Hlt.
    destruct (generateInviteCode env (log (check_op code) w)) as [[code'|e] w2] eqn:Hgen;
      [| discriminate].
    apply (IH code' c (S attempts) w2 w'); [lia | | exact Hrun].
    exact (generateInviteCode_for_ascii env 6 "MP" code' _ _ eq_refl Hgen).
Qed.

Lemma generateUniqueInviteCode_ascii (env : Env) (w w' : World) (c : string) :
  generateUniqueInviteCode env w = (Ok c, w') -> ascii_only c = true.
Proof.
  unfold generateUniqueInviteCode, bind. intros Hrun.
  destruct (generateInviteCode env w) as [[first|e] w1] eqn:Hgen; [| discriminate].
  apply (generateUniqueInviteCode_while_ascii env 10 first c 0 w1 w');
    [lia | | exact Hrun].
  exact (generateInviteCode_for_ascii env 6 "MP" first _ _ eq_refl Hgen).
Qed.

(** The invite code typed by a new user is matched regardless of the case of
    its letters: on a code of ASCII characters [register] behaves the same as
    on its upper-case form. *)
Theorem register_ignores_case_of_invite_code
        (env : Env) (email password c : string) (w : World) :
  ascii_only c = true ->
  register env email password (Some c) w
  = register env email password (Some (toUpperCase c)) w.
Proof.
  intros Hc. unfold register.
  rewrite truthy_toUpperCase.
  rewrite (js_toUpperCase_ascii env (toUpperCase c))
    by (now rewrite ascii_only_toUpperCase).
  now rewrite (js_toUpperCase_ascii env c Hc), toUpperCase_idempotent.
Qed.

Lemma register_ignores_case_of_invite_code_witness :
  register env_walk "dani@monety.app" "pw5678" (Some "mpGhIjKl") (snd caio_registers)
  = register env_walk "dani@monety.app" "pw5678" (Some (toUpperCase "mpGhIjKl"))
             (snd caio_registers).
Proof.
  apply (register_ignores_case_of_invite_code env_walk "dani@monety.app" "pw5678"
           "mpGhIjKl" (snd caio_registers)).
  reflexivity.
Defined.

(** A code of the generator's shape is its own upper-case form, so the code
    a user is given is the value the referral lookup searches for when it is
    typed as given. *)
Theorem generated_code_is_upper_case (n : nat) (code : string) :
  code_shape n code = true -> toUpperCase code = code.
Proof.
  intros Hs. destruct (code_shape_inv n code Hs) as [rest [-> [_ Hall]]].
  cbn [toUpperCase]. rewrite (toUpperCase_all_code_chars rest Hall). reflexivity.
Qed.

Lemma generated_code_is_upper_case_witness : toUpperCase "MPA1B2C3" = "MPA1B2C3".
Proof. apply (generated_code_is_upper_case 6 "MPA1B2C3"). reflexivity. Defined.

(** ** From one registration to the next operation *)

Ltac calls_bound :=
  unfold log;
  cbn [calls set_token set_user set_accounts set_calls set_users set_invites
       set_rand_pos set_ui set_error set_loading set_stats set_loadingStats];
  rewrite ?length_app; cbn [length]; lia.

Lemma where_inviteCode_set_doc_fresh (code id : string) (d : UserDoc.t)
      (c : list (string * UserDoc.t)) :
  where_inviteCode code c = [] ->
  UserDoc.inviteCode d = code ->
  where_inviteCode code (set_doc id d c) = [(id, d)].
Proof.
  intros Hnone Hd. unfold where_inviteCode in *.
  induction c as [|[k v] c IH]; simpl in *.
  - rewrite Hd, String.eqb_refl. reflexivity.
  - destruct (String.eqb (UserDoc.inviteCode v) code) eqn:Hv; [discriminate |].
    destruct (String.eqb k id); simpl.
    + rewrite Hd, String.eqb_refl. now rewrite Hnone.
    + rewrite Hv. now apply IH.
Qed.

Lemma taken_false_where (code : string) (w : World) :
  taken code w = false -> where_inviteCode code (users w) = [].
Proof.
  unfold taken. destruct (where_inviteCode code (users w)); [reflexivity | discriminate].
Qed.

Lemma toUpperCase_nonempty (c : string) : toUpperCase c <> "" -> c <> "".
Proof. destruct c; [intros H; now elim H | discriminate]. Qed.

(** A referral round trip: when a user has registered and the code stored on
    the document was carried by no other user, a second registration that
    supplies this code, in any case of letters, is linked to the first user:
    [invitedBy] of the second document and [inviterId] of the one invite
    record written are the first user's uid. *)
Theorem referral_round_trip
        (env env2 : Env) (email1 password1 email2 password2 c : string)
        (inviteCode1 : option string) (w w1 w2 : World) (d1 : UserDoc.t) :
  let uid1 := fresh_uid env (length (accounts w)) in
  let uid2 := fresh_uid env2 (length (accounts w1)) in
  register env email1 password1 inviteCode1 w = (Ok tt, w1) ->
  uid1 <> "" ->
  get_doc uid1 (users w1) = Some d1 ->
  UserDoc.inviteCode d1 <> "" ->
  taken (UserDoc.inviteCode d1) w = false ->
  toUpperCase c = UserDoc.inviteCode d1 ->
  register env2 email2 password2 (Some c) w1 = (Ok tt, w2) ->
  exists d2,
    get_doc uid2 (users w2) = Some d2
    /\ UserDoc.invitedBy d2 = Some uid1
    /\ invites w2
       = (invites w1 ++ [InviteDoc.mk uid1 uid2 1 "pending" serverTimestamp])%list.
Proof.
  intros uid1 uid2 Hreg1 Huid1 Hdoc1 Hcode Hfree Hc Hreg2.
  assert (Hascii : js_toUpperCase env2 c = toUpperCase c).
  { apply js_toUpperCase_ascii. rewrite <- ascii_only_toUpperCase, Hc.
    destruct (register_stores_generated_code env _ _ _ _ _ Hreg1)
      as [d [wa [wb [Hd Hgen]]]].
    fold uid1 in Hd. rewrite Hdoc1 in Hd. inversion Hd; subst d.
    exact (generateUniqueInviteCode_ascii env _ _ _ Hgen). }
  apply register_ok_effects in Hreg1.
  destruct Hreg1 as [inviter1 [lookup1 [first1 [more1 Hreg1]]]]. cbv zeta in Hreg1.
  destruct Hreg1 as [_ [_ [_ [Husers1 _]]]].
  fold uid1 in Husers1.
  rewrite Husers1, get_doc_set_doc in Hdoc1. inversion Hdoc1 as [Hd1]. clear Hdoc1.
  apply register_ok_effects in Hreg2.
  destruct Hreg2 as [inviter2 [lookup2 [first2 [more2 Hreg2]]]]. cbv zeta in Hreg2.
  destruct Hreg2 as [Hl [_ [_ [Husers2 [_ [Hinv2 _]]]]]].
  fold uid2 in Husers2, Hinv2.
  destruct Hl as [[Hno _] | [c' [dd [rest [Heq [_ [Hq [-> _]]]]]]]].
  { simpl in Hno. rewrite <- Hc in Hcode. apply toUpperCase_nonempty in Hcode.
    apply truthy_nonempty in Hcode. congruence. }
  inversion Heq; subst c'. clear Heq.
  rewrite Hascii, Hc, Husers1 in Hq.
  rewrite (where_inviteCode_set_doc_fresh _ uid1 _ (users w)) in Hq;
    [| now apply taken_false_where | now rewrite <- Hd1].
  inversion Hq; subst dd rest. clear Hq. cbn [fst] in Husers2, Hinv2.
  assert (Hor : or_null (Some uid1) = Some uid1).
  { unfold or_null. cbn [truthy_opt]. apply truthy_nonempty in Huid1. now rewrite Huid1. }
  rewrite Hor in Husers2, Hinv2.
  eexists. split; [rewrite Husers2; apply get_doc_set_doc |].
  split; [reflexivity | exact Hinv2].
Qed.

Lemma find_app_new {A} (p : A -> bool) (l : list A) (x : A) :
  (forall y, In y l -> p y = false) -> p x = true -> find p (l ++ [x]) = Some x.
Proof.
  intros Hl Hx. induction l as [|a l IH]; simpl.
  - now rewrite Hx.
  - rewrite (Hl a (or_introl eq_refl)). apply IH. intros y Hy. apply Hl. now right.
Qed.

Lemma existsb_false_In {A} (p : A -> bool) (l : list A) :
  existsb p l = false -> forall y, In y l -> p y = false.
Proof.
  intros H y Hy. destruct (p y) eqn:Hp; [| reflexivity].
  assert (existsb p l = true) by (apply existsb_exists; eauto). congruence.
Qed.

(** A registration round trip: after a successful [register], [login] with
    the same email and password succeeds whenever the vendor service rejects
    nothing, and leaves in the context the token it obtained and the user
    made of the new uid and the document [register] wrote. *)
Theorem register_then_login
        (env env2 : Env) (email password : string) (inviteCode : option string)
        (w w1 : World) :
  let uid := fresh_uid env (length (accounts w)) in
  register env email password inviteCode w = (Ok tt, w1) ->
  (forall n, length (calls w1) <= n -> fault env2 n = None) ->
  exists w2 d,
    login env2 email password w1 = (Ok tt, w2)
    /\ get_doc uid (users w1) = Some d
    /\ initialised d
    /\ user w2 = Some (mkUser uid d)
    /\ token w2 = Some (id_token env2 (S (length (calls w1))))
    /\ users w2 = users w1 /\ invites w2 = invites w1 /\ accounts w2 = accounts w1.
Proof.
  intros uid Hreg Hnf.
  pose proof (register_ok_inv env _ _ _ _ _ Hreg) as Hinv.
  destruct Hinv as [_ [_ [_ [_ [_ [Hused _]]]]]].
  apply register_ok_effects in Hreg.
  destruct Hreg as [inviter [lookup [first [more Hreg]]]]. cbv zeta in Hreg.
  destruct Hreg as [_ [_ [_ [Husers [Hacc _]]]]].
  fold uid in Husers, Hacc.
  set (d := new_user_doc email (last more first) (or_null inviter)) in *.
  assert (Hfind : find (fun a => String.eqb (acc_email a) email
                                 && String.eqb (acc_password a) password)
                       (accounts w1) = Some (mkAccount email password uid)).
  { rewrite Hacc. apply find_app_new.
    - intros y Hy. rewrite (existsb_false_In _ _ Hused y Hy). reflexivity.
    - cbn [acc_email acc_password]. now rewrite !String.eqb_refl. }
  assert (Hdoc : get_doc uid (users w1) = Some d)
    by (rewrite Husers; apply get_doc_set_doc).
  unfold login, try_catch, signInWithEmailAndPassword, getIdToken, getDoc_users.
  unfold bind at 1. rewrite sdk_call_no_fault by (apply Hnf; lia).
  unfold bind at 1, get at 1. cbn [accounts log set_calls]. rewrite Hfind.
  unfold ret at 1. cbn [acc_uid].
  unfold bind at 1. rewrite sdk_call_no_fault by (apply Hnf; calls_bound).
  unfold ret at 1. unfold bind at 1, modify at 1.
  unfold bind at 1. rewrite sdk_call_no_fault by (apply Hnf; calls_bound).
  unfold get at 1. cbn [users log set_calls set_token]. rewrite Hdoc.
  unfold modify.
  eexists. exists d. split; [reflexivity |].
  split; [reflexivity |]. split; [repeat split |].
  split; [reflexivity |]. split.
  - cbn [token set_user set_calls set_token log calls]. rewrite length_app.
    cbn [length]. do 2 f_equal. lia.
  - repeat split.
Qed.

Lemma referral_round_trip_witness :
  exists d2,
    get_doc (fresh_uid env_walk (length (accounts (snd caio_registers))))
            (users (snd dani_registers)) = Some d2
    /\ UserDoc.invitedBy d2 = Some (fresh_uid env_walk (length (accounts world_two)))
    /\ invites (snd dani_registers)
       = (invites (snd caio_registers)
          ++ [InviteDoc.mk (fresh_uid env_walk (length (accounts world_two)))
                           (fresh_uid env_walk (length (accounts (snd caio_registers))))
                           1 "pending" serverTimestamp])%list.
Proof.
  apply (referral_round_trip env_walk env_walk "caio@monety.app" "pw1234"
           "dani@monety.app" "pw5678" "mpghijkl" (Some "mpaaaaaa")
           world_two (snd caio_registers) (snd dani_registers)
           (new_user_doc "caio@monety.app" "MPGHIJKL" (Some "ana"))).
  - exact caio_registers_ok.
  - discriminate.
  - vm_compute. reflexivity.
  - discriminate.
  - vm_compute. reflexivity.
  - vm_compute. reflexivity.
  - vm_compute. reflexivity.
Defined.

Lemma register_then_login_witness :
  exists w2 d,
    login env_walk "caio@monety.app" "pw1234" (snd caio_registers) = (Ok tt, w2)
    /\ get_doc (fresh_uid env_walk (length (accounts world_two)))
               (users (snd caio_registers)) = Some d
    /\ initialised d
    /\ user w2 = Some (mkUser (fresh_uid env_walk (length (accounts world_two))) d)
    /\ token w2 = Some (id_token env_walk (S (length (calls (snd caio_registers)))))
    /\ users w2 = users (snd caio_registers)
    /\ invites w2 = invites (snd caio_registers)
    /\ accounts w2 = accounts (snd caio_registers).
Proof.
  apply (register_then_login env_walk env_walk "caio@monety.app" "pw1234"
           (Some "mpaaaaaa") world_two (snd caio_registers)).
  - exact caio_registers_ok.
  - intros n _. reflexivity.
Defined.

(** ** How far a registration gets *)

Section RegisterOutcomes.

Variable env : Env.

Lemma generateUniqueInviteCode_backend (w w' : World) r :
  generateUniqueInviteCode env w = (r, w') ->
  users w' = users w /\ invites w' = invites w /\ accounts w' = accounts w.
Proof.
  intros Hrun. apply generateUniqueInviteCode_spec in Hrun.
  destruct Hrun as [first [more [_ [-> _]]]]. repeat split.
Qed.

Ltac outcome_cases H :=
  repeat match type of H with
         | context [match fault env ?n with _ => _ end] =>
             destruct (fault env n) eqn:?
         | context [match where_inviteCode ?c ?u with _ => _ end] =>
             destruct (where_inviteCode c u) eqn:?
         | context [if existsb ?p ?l then _ else _] =>
             destruct (existsb p l) eqn:?
         | context [if truthy ?s then _ else _] =>
             destruct (truthy s) eqn:?
         | context [if code_is ?e ?c then _ else _] =>
             destruct (code_is e c) eqn:?
         | context [generateUniqueInviteCode env ?W] =>
             let Hgen := fresh "Hgen" in
             destruct (generateUniqueInviteCode env W) as [[?code|?e] ?w3] eqn:Hgen;
             apply generateUniqueInviteCode_backend in Hgen;
             destruct Hgen as [?Hu [?Hi ?Ha]]
         end.

Ltac backend_simpl :=
  cbn [accounts users invites log set_calls set_token set_accounts set_users
       set_invites];
  repeat match goal with
         | Hx : users ?w3 = _ |- context [users ?w3] => rewrite Hx
         | Hx : invites ?w3 = _ |- context [invites ?w3] => rewrite Hx
         | Hx : accounts ?w3 = _ |- context [accounts ?w3] => rewrite Hx
         end;
  cbn [accounts users invites log set_calls set_token set_accounts set_users
       set_invites].

Ltac outcome_leaf :=
  first
    [ left; split; [eexists; reflexivity |];
      repeat split; backend_simpl; reflexivity
    | right; split; [assumption |]; split; [backend_simpl; reflexivity |];
      first
        [ left; split; [eexists; reflexivity |];
          split; backend_simpl; reflexivity
        | right; eexists; split; [backend_simpl; reflexivity |];
          first
            [ left; split; [eexists; reflexivity | backend_simpl; reflexivity]
            | right; split; [reflexivity |];
              first [ left; backend_simpl; reflexivity
                    | right; eexists; backend_simpl; reflexivity ] ] ] ].

Lemma register_stages
        (email password : string) (inviteCode : option string)
        (w w' : World) (r : Result unit) :
  register env email password inviteCode w = (r, w') ->
  let uid := fresh_uid env (length (accounts w)) in
  ((exists e, r = Throw e)
   /\ accounts w' = accounts w /\ users w' = users w /\ invites w' = invites w)
  \/ (existsb (fun a => String.eqb (acc_email a) email) (accounts w) = false
      /\ accounts w' = (accounts w ++ [mkAccount email password uid])%list
      /\ (((exists e, r = Throw e) /\ users w' = users w /\ invites w' = invites w)
          \/ (exists d,
                users w' = set_doc uid d (users w)
                /\ (((exists e, r = Throw e) /\ invites w' = invites w)
                    \/ (r = Ok tt
                        /\ (invites w' = invites w
                            \/ exists i, invites w' = (invites w ++ [i])%list)))))).
Proof.
  intros H uid. subst uid.
  unfold register, try_catch, getDocs_users_where_inviteCode,
    createUserWithEmailAndPassword, getIdToken, setDoc_users, addDoc_invites,
    sdk_call in H.
  unfold bind, get, modify, ret, throw in H.
  destruct inviteCode as [c|]; [destruct (truthy c) eqn:Hc |];
    outcome_cases H; inversion H; subst; clear H; outcome_leaf.
Qed.

End RegisterOutcomes.

(** [register] writes in a fixed order and is not atomic.  Whatever its
    outcome, it leaves the backend in one of four states: nothing written;
    the account created only; the account and the user document; all of it,
    with at most one invite record.  It returns without error only in the
    last state, and throws in the first three. *)
Theorem register_outcomes
        (env : Env) (email password : string) (inviteCode : option string)
        (w w' : World) (r : Result unit) :
  register env email password inviteCode w = (r, w') ->
  let uid := fresh_uid env (length (accounts w)) in
  ((exists e, r = Throw e)
   /\ accounts w' = accounts w /\ users w' = users w /\ invites w' = invites w)
  \/ (existsb (fun a => String.eqb (acc_email a) email) (accounts w) = false
      /\ accounts w' = (accounts w ++ [mkAccount email password uid])%list
      /\ (((exists e, r = Throw e) /\ users w' = users w /\ invites w' = invites w)
          \/ (exists d,
                users w' = set_doc uid d (users w)
                /\ (((exists e, r = Throw e) /\ invites w' = invites w)
                    \/ (r = Ok tt
                        /\ (invites w' = invites w
                            \/ exists i, invites w' = (invites w ++ [i])%list)))))).
Proof. exact (register_stages env email password inviteCode w w' r). Qed.

Lemma register_outcomes_witness :
  let uid := fresh_uid (env_rejecting 5) (length (accounts world_two)) in
  ((exists e, fst caio_half_registers = Throw e)
   /\ accounts (snd caio_half_registers) = accounts world_two
   /\ users (snd caio_half_registers) = users world_two
   /\ invites (snd caio_half_registers) = invites world_two)
  \/ (existsb (fun a => String.eqb (acc_email a) "caio@monety.app") (accounts world_two)
      = false
      /\ accounts (snd caio_half_registers)
         = (accounts world_two ++ [mkAccount "caio@monety.app" "pw1234" uid])%list
      /\ (((exists e, fst caio_half_registers = Throw e)
           /\ users (snd caio_half_registers) = users world_two
           /\ invites (snd caio_half_registers) = invites world_two)
          \/ (exists d,
                users (snd caio_half_registers) = set_doc uid d (users world_two)
                /\ (((exists e, fst caio_half_registers = Throw e)
                     /\ invites (snd caio_half_registers) = invites world_two)
                    \/ (fst caio_half_registers = Ok tt
                        /\ (invites (snd caio_half_registers) = invites world_two
                            \/ exists i, invites (snd caio_half_registers)
                                         = (invites world_two ++ [i])%list)))))).
Proof.
  apply (register_outcomes (env_rejecting 5) "caio@monety.app" "pw1234"
           (Some "mpaaaaaa") world_two (snd caio_half_registers)
           (fst caio_half_registers)).
  vm_compute. reflexivity.
Defined.

(** The account exists, the document does not. *)
Example caio_half_registers_run :
  fst caio_half_registers = Throw permission_denied
  /\ accounts (snd caio_half_registers)
     = (accounts world_two ++ [mkAccount "caio@monety.app" "pw1234" "uid-2"])%list
  /\ users (snd caio_half_registers) = users world_two
  /\ invites (snd caio_half_registers) = invites world_two.
Proof. vm_compute. auto. Qed.

(** With an email that already has an account, [register] never succeeds
    and writes nothing, whatever invite code is supplied and whatever the
    vendor service answers. *)
Theorem register_with_used_email
        (env : Env) (email password : string) (inviteCode : option string) (w : World) :
  existsb (fun a => String.eqb (acc_email a) email) (accounts w) = true ->
  (exists e, fst (register env email password inviteCode w) = Throw e)
  /\ accounts (snd (register env email password inviteCode w)) = accounts w
  /\ users (snd (register env email password inviteCode w)) = users w
  /\ invites (snd (register env email password inviteCode w)) = invites w.
Proof.
  intros Hused.
  destruct (register env email password inviteCode w) as [r w'] eqn:Hrun.
  apply register_stages in Hrun. cbv zeta in Hrun. cbn [fst snd].
  destruct Hrun as [H | [Hfree _]]; [exact H | congruence].
Qed.

Lemma register_with_used_email_witness :
  (exists e, fst (register env_walk "ana@monety.app" "other" None world_two) = Throw e)
  /\ accounts (snd (register env_walk "ana@monety.app" "other" None world_two))
     = accounts world_two
  /\ users (snd (register env_walk "ana@monety.app" "other" None world_two))
     = users world_two
  /\ invites (snd (register env_walk "ana@monety.app" "other" None world_two))
     = invites world_two.
Proof.
  apply (register_with_used_email env_walk "ana@monety.app" "other" None world_two).
  reflexivity.
Defined.

(** A registration that failed after the account was created cannot be
    repeated: every later [register] with the same email, from the state the
    failed one left, throws and writes nothing, so the account stays without
    a user document. *)
Theorem register_cannot_be_retried
        (env env2 : Env) (email password password2 : string)
        (inviteCode inviteCode2 : option string) (w w1 : World) (e : JsError) :
  register env email password inviteCode w = (Throw e, w1) ->
  accounts w1 <> accounts w ->
  (exists e2, fst (register env2 email password2 inviteCode2 w1) = Throw e2)
  /\ accounts (snd (register env2 email password2 inviteCode2 w1)) = accounts w1
  /\ users (snd (register env2 email password2 inviteCode2 w1)) = users w1
  /\ invites (snd (register env2 email password2 inviteCode2 w1)) = invites w1.
Proof.
  intros Hrun Hchanged.
  assert (Hused : existsb (fun a => String.eqb (acc_email a) email) (accounts w1) = true).
  { apply register_stages in Hrun. cbv zeta in Hrun.
    destruct Hrun as [[_ [Hsame _]] | [_ [Hacc _]]]; [contradiction |].
    rewrite Hacc, existsb_app. cbn [existsb acc_email].
    now rewrite String.eqb_refl, orb_true_r. }
  destruct (register env2 email password2 inviteCode2 w1) as [r2 w2] eqn:Hrun2.
  apply register_stages in Hrun2. cbv zeta in Hrun2. cbn [fst snd].
  destruct Hrun2 as [H | [Hfree _]]; [exact H | congruence].
Qed.

Lemma register_cannot_be_retried_witness :
  (exists e2, fst (register env_walk "caio@monety.app" "pw1234" (Some "mpaaaaaa")
                            (snd caio_half_registers)) = Throw e2)
  /\ accounts (snd (register env_walk "caio@monety.app" "pw1234" (Some "mpaaaaaa")
                             (snd caio_half_registers)))
     = accounts (snd caio_half_registers)
  /\ users (snd (register env_walk "caio@monety.app" "pw1234" (Some "mpaaaaaa")
                          (snd caio_half_registers)))
     = users (snd caio_half_registers)
  /\ invites (snd (register env_walk "caio@monety.app" "pw1234" (Some "mpaaaaaa")
                            (snd caio_half_registers)))
     = invites (snd caio_half_registers).
Proof.
  apply (register_cannot_be_retried (env_rejecting 5) env_walk "caio@monety.app"
           "pw1234" "pw1234" (Some "mpaaaaaa") (Some "mpaaaaaa") world_two
           (snd caio_half_registers) permission_denied).
  - vm_compute. reflexivity.
  - vm_compute. discriminate.
Defined.

(** ** How far a login gets *)

Section LoginOutcomes.

Variable env : Env.

Ltac login_cases H :=
  repeat match type of H with
         | context [match fault env ?n with _ => _ end] =>
             destruct (fault env n) eqn:?
         | context [match find ?p ?l with _ => _ end] =>
             destruct (find p l) eqn:?
         | context [match get_doc ?i ?u with _ => _ end] =>
             destruct (get_doc i u) eqn:?
         | context [if ?a || ?b then _ else _] =>
             destruct (a || b) eqn:?
         end.

Ltac login_leaf :=
  cbn [users invites accounts token user calls log set_calls set_token set_user] in *;
  split; [repeat split |];
  first
    [ left; split; [eexists; reflexivity |];
      split; [reflexivity |]; split; [reflexivity |];
      first
        [ left; reflexivity
        | right; eexists; split; [eassumption |];
          rewrite <- ?app_assoc; reflexivity ]
    | right; eexists; split; [eassumption |];
      split; [rewrite ?length_app; cbn [length]; rewrite ?Nat.add_1_r; reflexivity |];
      split; [rewrite <- ?app_assoc; reflexivity |];
      first
        [ left; split; [eexists; reflexivity | reflexivity]
        | right; split; [reflexivity |];
          match goal with
          | Hd : get_doc _ _ = _ |- _ => rewrite Hd
          end; reflexivity ] ].

Lemma login_stages (email password : string) (w w' : World) (r : Result unit) :
  login env email password w = (r, w') ->
  let credentials := fun a => String.eqb (acc_email a) email
                              && String.eqb (acc_password a) password in
  let signIn := Op_signInWithEmailAndPassword email password in
  (users w' = users w /\ invites w' = invites w /\ accounts w' = accounts w)
  /\ (((exists e, r = Throw e)
       /\ token w' = token w /\ user w' = user w
       /\ (calls w' = (calls w ++ [signIn])%list
           \/ exists a, find credentials (accounts w) = Some a
                        /\ calls w' = (calls w ++ [signIn; Op_getIdToken (acc_uid a)])%list))
      \/ (exists a,
            find credentials (accounts w) = Some a
            /\ token w' = Some (id_token env (S (length (calls w))))
            /\ calls w' = (calls w ++ [signIn; Op_getIdToken (acc_uid a);
                                       Op_getDoc "users" (acc_uid a)])%list
            /\ (((exists e, r = Throw e) /\ user w' = user w)
                \/ (r = Ok tt
                    /\ user w' = match get_doc (acc_uid a) (users w) with
                                 | Some d => Some (mkUser (acc_uid a) d)
                                 | None => user w
                                 end)))).
Proof.
  intros H credentials signIn. subst credentials signIn.
  unfold login, try_catch, signInWithEmailAndPassword, getIdToken, getDoc_users,
    sdk_call in H.
  unfold bind, get, modify, ret, throw in H.
  login_cases H; inversion H; subst; clear H; login_leaf.
Qed.

End LoginOutcomes.

(** [login] only reads.  Whatever its outcome, the backend is as before and
    the operations issued are the sign-in, then the token request, then the
    read of the user's document.  It throws before the token is stored
    (context as before), or after it (token stored, user as before), or
    returns with the token stored and the user set from the document when
    there is one. *)
Theorem login_outcomes (env : Env) (email password : string) (w w' : World) (r : Result unit) :
  login env email password w = (r, w') ->
  let credentials := fun a => String.eqb (acc_email a) email
                              && String.eqb (acc_password a) password in
  let signIn := Op_signInWithEmailAndPassword email password in
  (users w' = users w /\ invites w' = invites w /\ accounts w' = accounts w)
  /\ (((exists e, r = Throw e)
       /\ token w' = token w /\ user w' = user w
       /\ (calls w' = (calls w ++ [signIn])%list
           \/ exists a, find credentials (accounts w) = Some a
                        /\ calls w' = (calls w ++ [signIn; Op_getIdToken (acc_uid a)])%list))
      \/ (exists a,
            find credentials (accounts w) = Some a
            /\ token w' = Some (id_token env (S (length (calls w))))
            /\ calls w' = (calls w ++ [signIn; Op_getIdToken (acc_uid a);
                                       Op_getDoc "users" (acc_uid a)])%list
            /\ (((exists e, r = Throw e) /\ user w' = user w)
                \/ (r = Ok tt
                    /\ user w' = match get_doc (acc_uid a) (users w) with
                                 | Some d => Some (mkUser (acc_uid a) d)
                                 | None => user w
                                 end)))).
Proof. exact (login_stages env email password w w' r). Qed.

Lemma login_outcomes_witness :
  let w' := snd (login env_walk "ana@monety.app" "secret" world_two) in
  let r := fst (login env_walk "ana@monety.app" "secret" world_two) in
  let credentials := fun a => String.eqb (acc_email a) "ana@monety.app"
                              && String.eqb (acc_password a) "secret" in
  let signIn := Op_signInWithEmailAndPassword "ana@monety.app" "secret" in
  (users w' = users world_two /\ invites w' = invites world_two
   /\ accounts w' = accounts world_two)
  /\ (((exists e, r = Throw e)
       /\ token w' = token world_two /\ user w' = user world_two
       /\ (calls w' = (calls world_two ++ [signIn])%list
           \/ exists a, find credentials (accounts world_two) = Some a
                        /\ calls w' = (calls world_two
                                       ++ [signIn; Op_getIdToken (acc_uid a)])%list))
      \/ (exists a,
            find credentials (accounts world_two) = Some a
            /\ token w' = Some (id_token env_walk (S (length (calls world_two))))
            /\ calls w' = (calls world_two ++ [signIn; Op_getIdToken (acc_uid a);
                                               Op_getDoc "users" (acc_uid a)])%list
            /\ (((exists e, r = Throw e) /\ user w' = user world_two)
                \/ (r = Ok tt
                    /\ user w' = match get_doc (acc_uid a) (users world_two) with
                                 | Some d => Some (mkUser (acc_uid a) d)
                                 | None => user world_two
                                 end)))).
Proof.
  apply (login_outcomes env_walk "ana@monety.app" "secret" world_two).
  vm_compute. reflexivity.
Defined.

(** With an email and password that match no account, [login] throws and
    leaves the token and the user of the context as they were. *)
Theorem login_with_unknown_credentials
        (env : Env) (email password : string) (w : World) :
  find (fun a => String.eqb (acc_email a) email
                 && String.eqb (acc_password a) password) (accounts w) = None ->
  (exists e, fst (login env email password w) = Throw e)
  /\ token (snd (login env email password w)) = token w
  /\ user (snd (login env email password w)) = user w.
Proof.
  intros Hfind.
  destruct (login env email password w) as [r w'] eqn:Hrun. cbn [fst snd].
  apply login_stages in Hrun. cbv zeta in Hrun.
  destruct Hrun as [_ [[He [Ht [Hu _]]] | [a [Ha _]]]]; [auto | congruence].
Qed.

Lemma login_with_unknown_credentials_witness :
  (exists e, fst (login env_walk "ana@monety.app" "wrong" world_logged_in) = Throw e)
  /\ token (snd (login env_walk "ana@monety.app" "wrong" world_logged_in))
     = token world_logged_in
  /\ user (snd (login env_walk "ana@monety.app" "wrong" world_logged_in))
     = user world_logged_in.
Proof.
  apply (login_with_unknown_credentials env_walk "ana@monety.app" "wrong"
           world_logged_in).
  reflexivity.
Defined.

(** A login that throws can still take the visitor past the login page: when
    it throws after having replaced the token (the read of the user's
    document was rejected), the application shows its shell and not the
    login or register page, although no user was loaded. *)
Theorem failed_login_can_leave_the_login_page
        (env : Env) (email password : string) (w w' : World) (e : JsError)
        (currentPage : Page) (showAuth : AuthPage) :
  login env email password w = (Throw e, w') ->
  token w' <> token w ->
  id_token env (S (length (calls w))) <> "" ->
  App w' currentPage showAuth = View_shell currentPage
  /\ user w' = user w.
Proof.
  intros Hrun Htoken Hid.
  apply login_stages in Hrun. cbv zeta in Hrun.
  destruct Hrun as [_ [[_ [Ht _]] | [a [_ [Ht [_ Hres]]]]]]; [congruence |].
  destruct Hres as [[_ Hu] | [Hok _]]; [| discriminate].
  split; [| exact Hu].
  unfold App, AppContent. rewrite Ht. cbn [truthy_opt].
  apply truthy_nonempty in Hid. rewrite Hid.
  cbn [negb]. now rewrite andb_false_r.
Qed.

Lemma failed_login_can_leave_the_login_page_witness :
  App (snd (login (env_rejecting 2) "ana@monety.app" "secret" world_two))
      home login_page = View_shell home
  /\ user (snd (login (env_rejecting 2) "ana@monety.app" "secret" world_two))
     = user world_two.
Proof.
  apply (failed_login_can_leave_the_login_page (env_rejecting 2) "ana@monety.app"
           "secret" world_two
           (snd (login (env_rejecting 2) "ana@monety.app" "secret" world_two))
           permission_denied home login_page).
  - vm_compute. reflexivity.
  - vm_compute. discriminate.
  - vm_compute. discriminate.
Defined.

(** ** The login page *)

Lemma errorMessage_of_nonempty (e : JsError) : errorMessage_of e <> "".
Proof.
  unfold errorMessage_of.
  destruct (code_is e "auth/invalid-credential"
            || includes (err_message e) "invalid-credential"); [discriminate |].
  destruct (code_is e "auth/user-not-found"); [discriminate |].
  destruct (code_is e "auth/wrong-password"); [discriminate |].
  destruct (code_is e "auth/too-many-requests"); discriminate.
Qed.

Lemma login_leaves_page_state (env : Env) (email password : string) (w : World) :
  let w' := snd (login env email password w) in
  ui w' = ui w /\ error w' = error w /\ loading w' = loading w.
Proof.
  cbv zeta. destruct (login env email password w) as [r w'] eqn:Hrun. cbn [snd].
  revert Hrun.
  apply (preserves_login
           (fun a b => ui b = ui a /\ error b = error a /\ loading b = loading a));
    try (intros; repeat split; reflexivity).
  intros a b c [H1 [H2 H3]] [H4 [H5 H6]]. repeat split; congruence.
Qed.

(** Submitting the login form never throws and always ends with the
    loading flag off.  When [login] returned, the page shows no error, a
    success toast, and navigates to ['/home']; when [login] threw, it shows a
    non-empty error message, an error toast with the same message, and does
    not navigate. *)
Theorem handleSubmit_outcomes (env : Env) (email password : string) (w : World) :
  let w' := snd (handleSubmit env email password w) in
  fst (handleSubmit env email password w) = Ok tt
  /\ loading w' = false
  /\ match fst (login env email password (set_loading true (set_error "" w))) with
     | Ok _ =>
         error w' = ""
         /\ ui w' = (ui w ++ [Ui_toast_success "🎉 Bem-vindo ao Monety!"
                                               "Login realizado com sucesso";
                              Ui_navigate "/home"])%list
     | Throw e =>
         error w' = errorMessage_of e
         /\ error w' <> ""
         /\ ui w' = (ui w ++ [Ui_console (err_message e);
                              Ui_toast_error "Falha no login" (errorMessage_of e)])%list
     end.
Proof.
  cbv zeta.
  pose proof (login_leaves_page_state env email password
                (set_loading true (set_error "" w))) as Hframe.
  cbv zeta in Hframe.
  destruct (handleSubmit env email password w) as [r w'] eqn:Hrun.
  unfold handleSubmit, try_finally, try_catch, bind, emit, modify in Hrun.
  destruct (login env email password (set_loading true (set_error "" w)))
    as [[[]|e] w1] eqn:Hlogin; cbn [fst snd] in *;
    destruct Hframe as [Hui [Herr _]];
    cbn [ui error set_loading set_error] in Hui, Herr;
    inversion Hrun; subst r w'; clear Hrun;
    cbn [loading error ui set_loading set_ui set_error];
    rewrite ?Hui, ?Herr, <- ?app_assoc; repeat split.
  apply errorMessage_of_nonempty.
Qed.

(** ** The statistics of the home page *)

Section FetchStats.

Variable env : Env.

(** [fetchStats] never throws: a failed request, a non-JSON answer or an
    unparsable body are swallowed.  It leaves the backend and the
    authentication context alone, and when it issued a request the loading
    flag of the statistics is off afterwards. *)
Theorem fetchStats_never_throws (w : World) :
  let w' := snd (fetchStats env w) in
  fst (fetchStats env w) = Ok tt
  /\ users w' = users w /\ invites w' = invites w /\ accounts w' = accounts w
  /\ token w' = token w /\ user w' = user w
  /\ (truthy_opt (token w) = true -> loadingStats w' = false)
  /\ (truthy_opt (token w) = false -> loadingStats w' = loadingStats w).
Proof.
  cbv zeta. destruct (fetchStats env w) as [r w'] eqn:Hrun. cbn [fst snd].
  unfold fetchStats, bind, get in Hrun.
  destruct (token w) as [t|] eqn:Htoken;
    [destruct (truthy t) eqn:Ht; cbn [negb] in Hrun |].
  2, 3: inversion Hrun; subst; cbn [truthy_opt]; rewrite ?Ht;
        repeat split; intros; try reflexivity; congruence.
  unfold try_finally, try_catch, bind, fetch, log, response_json, modify, emit, ret, throw
    in Hrun.
  cbn [calls set_loadingStats set_calls] in Hrun.
  destruct (http env (length (calls w))) as [e|resp];
    [| destruct (resp_content_type resp) as [contentType|];
       [destruct (resp_ok resp && truthy contentType
                  && includes contentType "application/json");
        [destruct (resp_json resp) |] |]];
    inversion Hrun; subst; cbn [truthy_opt]; rewrite ?Ht;
    repeat split; intros; try reflexivity; try assumption; congruence.
Qed.

(** The statistics are replaced exactly when the request resolves with an
    ok response whose content type includes ['application/json'] and whose
    body parses; they are then the parsed body.  In every other case they
    stay as they were. *)
Theorem fetchStats_updates_stats (w : World) (t : string) :
  token w = Some t -> t <> "" ->
  let w' := snd (fetchStats env w) in
  match http env (length (calls w)) with
  | Fetch_resolves resp =>
      match resp_content_type resp, resp_json resp with
      | Some contentType, Some data =>
          if resp_ok resp && includes contentType "application/json"
          then stats w' = data
          else stats w' = stats w
      | _, _ => stats w' = stats w
      end
  | Fetch_rejects _ => stats w' = stats w
  end.
Proof.
  intros Htoken Ht. cbv zeta.
  destruct (fetchStats env w) as [r w'] eqn:Hrun. cbn [snd].
  unfold fetchStats, try_finally, try_catch, fetch, log, response_json in Hrun.
  unfold bind, get, modify, emit, ret, throw in Hrun.
  rewrite Htoken in Hrun. apply truthy_nonempty in Ht. rewrite Ht in Hrun.
  cbn [negb calls set_loadingStats set_calls] in Hrun.
  destruct (http env (length (calls w))) as [e|resp]; [now inversion Hrun |].
  destruct (resp_content_type resp) as [contentType|]; [| now inversion Hrun].
  assert (Hct : includes contentType "application/json" = true ->
                truthy contentType = true)
    by (destruct contentType; [discriminate | reflexivity]).
  destruct (resp_ok resp); cbn [andb] in *.
  - destruct (includes contentType "application/json").
    + rewrite (Hct eq_refl) in Hrun. cbn [andb] in Hrun.
      destruct (resp_json resp); now inversion Hrun.
    + rewrite andb_false_r in Hrun. destruct (resp_json resp); now inversion Hrun.
  - destruct (resp_json resp); now inversion Hrun.
Qed.

End FetchStats.

Lemma fetchStats_updates_stats_witness :
  let w' := snd (fetchStats env_walk world_logged_in) in
  match http env_walk (length (calls world_logged_in)) with
  | Fetch_resolves resp =>
      match resp_content_type resp, resp_json resp with
      | Some contentType, Some data =>
          if resp_ok resp && includes contentType "application/json"
          then stats w' = data
          else stats w' = stats world_logged_in
      | _, _ => stats w' = stats world_logged_in
      end
  | Fetch_rejects _ => stats w' = stats world_logged_in
  end.
Proof.
  apply (fetchStats_updates_stats env_walk world_logged_in "token").
  - reflexivity.
  - discriminate.
Defined.

(** ** The welcome header *)



(** The initial shown in the avatar is exactly one character, which is not
    a lower-case letter, whenever the email does not start with a character
    outside ASCII: the first character of the email in upper case, or ['M']
    when the email is empty or there is no user. *)
Theorem getUserInitial_shown (env : Env) (u : option User) :
  (forall usr c rest,
      u = Some usr -> UserDoc.email (user_data usr) = String c rest ->
      nat_of_ascii c < 128) ->
  exists ch : ascii,
    getUserInitial env u = String ch ""
    /\ upper_ascii ch = ch
    /\ match u with
       | Some usr =>
           match UserDoc.email (user_data usr) with
           | String c _ => ch = upper_ascii c
           | EmptyString => ch = "M"%char
           end
       | None => ch = "M"%char
       end.
Proof.
  intros Hascii.
  unfold getUserInitial. destruct u as [usr|]; [| exists "M"%char; auto].
  cbv zeta. specialize (Hascii usr).
  destruct (UserDoc.email (user_data usr)) as [|c rest].
  - exists "M"%char. auto.
  - specialize (Hascii c rest eq_refl eq_refl). apply Nat.ltb_lt in Hascii.
    assert (Hchar : js_charAt env (String c rest) 0 = String c "").
    { unfold js_charAt. change (Z.to_nat 0) with 0.
      cbn [String.substring ascii_only]. rewrite Hascii.
      destruct rest; reflexivity. }
    assert (Hupper : js_toUpperCase env (String c "") = String (upper_ascii c) "").
    { unfold js_toUpperCase. cbn [ascii_only]. now rewrite Hascii. }
    rewrite Hchar, Hupper.
    exists (upper_ascii c). cbn [truthy]. split; [reflexivity |].
    split; [apply upper_ascii_idempotent | reflexivity].
Qed.

Lemma getUserInitial_shown_witness :
  exists ch : ascii,
    getUserInitial env_walk (Some (mkUser "ana" ana_doc)) = String ch ""
    /\ upper_ascii ch = ch
    /\ ch = upper_ascii "a".
Proof.
  apply (getUserInitial_shown env_walk (Some (mkUser "ana" ana_doc))).
  intros usr c rest Husr Hemail. inversion Husr; subst usr.
  inversion Hemail; subst. apply Nat.ltb_lt. reflexivity.
Defined.

(** Outside ASCII the initial can be longer than one character: the upper
    case of ['ß'] is ['SS']. *)
Example getUserInitial_sharp_s :
  getUserInitial env_walk
    (Some (mkUser "beta" (new_user_doc "ßeta@monety.app" "MPAAAAAA" None)))
  = "SS".
Proof. vm_compute. reflexivity. Qed.

(** ** Every code of the shape can be generated *)

Lemma index_in_chars (c : ascii) :
  is_code_char c = true ->
  index_in c chars < 36 /\ String.get (index_in c chars) chars = Some c.
Proof.
  destruct c as [[] [] [] [] [] [] [] []]; intros H;
    vm_compute in H; try discriminate H;
    (split; [apply Nat.ltb_lt; vm_compute; reflexivity | vm_compute; reflexivity]).
Qed.

Lemma charAt_index_in (c : ascii) :
  is_code_char c = true ->
  charAt chars (random_index (draw_for_index (index_in c chars))) = String c "".
Proof.
  intros Hc. destruct (index_in_chars c Hc) as [Hlt Hget].
  rewrite (random_index_draw_for_index _ Hlt). unfold charAt.
  destruct (Z.ltb_spec (Z.of_nat (index_in c chars)) 0); [lia |].
  now rewrite Nat2Z.id, Hget.
Qed.

Lemma append_one_assoc (a r : string) (c : ascii) :
  ((a ++ String c "") ++ r)%string = (a ++ String c r)%string.
Proof. induction a as [|x a IH]; simpl; [reflexivity | now rewrite IH]. Qed.

Lemma generateInviteCode_for_spells (env : Env) (rest : string) :
  forall (code0 : string) (w : World),
    all_chars is_code_char rest = true ->
    (forall j c, String.get j rest = Some c ->
                 random env (rand_pos w + j) = draw_for_index (index_in c chars)) ->
    fst (generateInviteCode_for env (String.length rest) code0 w)
    = Ok (code0 ++ rest)%string.
Proof.
  induction rest as [|c rest IH]; intros code0 w Hall Hdraws.
  - cbn. f_equal. induction code0 as [|x a IHa]; simpl; [reflexivity | now f_equal].
  - cbn [all_chars] in Hall. apply andb_true_iff in Hall. destruct Hall as [Hc Hrest].
    cbn [String.length generateInviteCode_for]. unfold bind, Math_random.
    replace (random env (rand_pos w)) with (draw_for_index (index_in c chars))
      by (rewrite <- (Hdraws 0 c eq_refl); f_equal; lia).
    rewrite (charAt_index_in c Hc).
    rewrite IH.
    + now rewrite append_one_assoc.
    + exact Hrest.
    + intros j c' Hj. cbn [rand_pos set_rand_pos].
      rewrite <- (Hdraws (S j) c' Hj). f_equal. lia.
Qed.

Lemma all_chars_get (p : ascii -> bool) (s : string) :
  all_chars p s = true -> forall j c, String.get j s = Some c -> p c = true.
Proof.
  induction s as [|a s IH]; intros Hall j c Hget; [destruct j; discriminate |].
  cbn in Hall. apply andb_true_iff in Hall. destruct Hall as [Ha Hs].
  destruct j as [|j]; cbn in Hget.
  - inversion Hget; subst. exact Ha.
  - eapply IH; eauto.
Qed.

Lemma random_ok_env_drawing (p : nat) (rest : string) :
  all_chars is_code_char rest = true -> random_ok (env_drawing p rest).
Proof.
  intros Hall n. cbn [random env_drawing]. unfold draws_for.
  assert (Hzero : unit_double double_zero)
    by (unfold unit_double, double_zero; cbn [mantissa exponent]; lia).
  destruct (n <? p); [exact Hzero |].
  destruct (String.get (n - p) rest) as [c|] eqn:Hget; [| exact Hzero].
  pose proof (all_chars_get _ _ Hall _ _ Hget) as Hc.
  destruct (index_in_chars c Hc) as [Hlt _].
  now apply unit_double_draw_for_index.
Qed.

(** The shape of the codes is exact: every string made of ['MP'] and six
    characters among A-Z and 0-9 is the code [generateInviteCode] returns for
    some values of [Math.random()] in the interval [0, 1). *)
Theorem generateInviteCode_reaches_every_code (code : string) (w : World) :
  code_shape 6 code = true ->
  exists env, random_ok env /\ fst (generateInviteCode env w) = Ok code.
Proof.
  intros Hs. destruct (code_shape_inv 6 code Hs) as [rest [-> [Hlen Hall]]].
  exists (env_drawing (rand_pos w) rest). split.
  - now apply random_ok_env_drawing.
  - unfold generateInviteCode. rewrite <- Hlen.
    rewrite generateInviteCode_for_spells; [reflexivity | exact Hall |].
    intros j c Hget. cbn [random env_drawing]. unfold draws_for.
    destruct (Nat.ltb_spec (rand_pos w + j) (rand_pos w)); [lia |].
    replace (rand_pos w + j - rand_pos w) with j by lia.
    now rewrite Hget.
Qed.

Lemma generateInviteCode_reaches_every_code_witness :
  exists env, random_ok env /\ fst (generateInviteCode env world_two) = Ok "MPZ9Y8X7".
Proof.
  apply (generateInviteCode_reaches_every_code "MPZ9Y8X7" world_two). reflexivity.
Defined.

(** ** The probing stops at the first free candidate *)

(** When the code returned is carried by no user, it is the first free
    candidate: every candidate generated before it was checked and found
    taken, and no check follows the one that found it free. *)
Theorem generateUniqueInviteCode_first_free
        (env : Env) (w w' : World) (code : string) :
  generateUniqueInviteCode env w = (Ok code, w') ->
  taken code w = false ->
  exists earlier : list string,
    calls w' = (calls w ++ map check_op (earlier ++ [code]))%list
    /\ Forall (fun c => taken c w = true) earlier
    /\ length earlier <= 10
    /\ rand_pos w' = 6 * S (length earlier) + rand_pos w.
Proof.
  intros Hrun Hfree. apply generateUniqueInviteCode_spec in Hrun.
  destruct Hrun as [first [more [Hlen [Hw' [Hall [_ [Hcode _]]]]]]].
  exists (removelast (first :: more)).
  assert (Hcands : (first :: more) = (removelast (first :: more) ++ [code])%list).
  { rewrite Hcode, <- (last_cons_default more first "").
    apply app_removelast_last. discriminate. }
  assert (Hcount : length (first :: more) = S (length (removelast (first :: more)))).
  { rewrite Hcands at 1. rewrite length_app. cbn [length]. lia. }
  cbn [length] in Hcount.
  repeat split.
  - rewrite <- Hcands. rewrite Hw'. reflexivity.
  - exact Hall.
  - lia.
  - rewrite Hw'. unfold probed_all. cbn [rand_pos set_rand_pos length]. lia.
Qed.

Lemma generateUniqueInviteCode_first_free_witness :
  exists earlier : list string,
    calls (snd (generateUniqueInviteCode env_walk world_two))
    = (calls world_two ++ map check_op (earlier ++ ["MPGHIJKL"]))%list
    /\ Forall (fun c => taken c world_two = true) earlier
    /\ length earlier <= 10
    /\ rand_pos (snd (generateUniqueInviteCode env_walk world_two))
       = 6 * S (length earlier) + rand_pos world_two.
Proof.
  apply (generateUniqueInviteCode_first_free env_walk world_two
           (snd (generateUniqueInviteCode env_walk world_two)) "MPGHIJKL").
  - vm_compute. reflexivity.
  - vm_compute. reflexivity.
Defined.

(** ** The listeners of the authentication context *)

Section Listeners.

Variable env : Env.

(** The callback of [onAuthStateChanged] never throws and fails safe.  For
    a signed-in user whose token is obtained it stores the token and
    registers one document listener, leaving the user as it was; when the
    token request is rejected, and when nobody is signed in, it clears both
    the user and the token and registers nothing. *)
Theorem onAuthStateChanged_callback_outcomes
        (firebaseUser : option FirebaseUser) (w : World) :
  let r := fst (onAuthStateChanged_callback env firebaseUser w) in
  let w' := snd (onAuthStateChanged_callback env firebaseUser w) in
  (users w' = users w /\ invites w' = invites w /\ accounts w' = accounts w)
  /\ match firebaseUser, fault env (length (calls w)) with
     | Some fu, None =>
         r = Ok [fu]
         /\ token w' = Some (id_token env (length (calls w)))
         /\ user w' = user w
     | _, _ => r = Ok [] /\ token w' = None /\ user w' = None
     end.
Proof.
  cbv zeta. unfold onAuthStateChanged_callback.
  destruct firebaseUser as [fu|]; [| repeat split].
  unfold try_catch, getIdToken, sdk_call, bind, modify, emit, ret.
  destruct (fault env (length (calls w))); repeat split.
Qed.

(** A document listener outlives the session that registered it.  When a
    user signs in, then the sign-out is notified, and the database then
    delivers the user's document to the listener registered at sign-in, the
    context ends with that user set and no token, and the application shows
    its shell instead of the login page. *)
Theorem snapshot_after_sign_out
        (fu : FirebaseUser) (d : UserDoc.t) (w : World)
        (currentPage : Page) (showAuth : AuthPage) :
  fault env (length (calls w)) = None ->
  get_doc (fb_uid fu) (users w) = Some d ->
  let signed_in := onAuthStateChanged_callback env (Some fu) w in
  let signed_out := onAuthStateChanged_callback env None (snd signed_in) in
  let delivered := deliver_snapshot fu (snd signed_out) in
  fst signed_in = Ok [fu]
  /\ user (snd signed_out) = None /\ token (snd signed_out) = None
  /\ App (snd signed_out) currentPage showAuth = View_auth showAuth
  /\ user (snd delivered) = Some (mkUser (fb_uid fu) d)
  /\ token (snd delivered) = None
  /\ App (snd delivered) currentPage showAuth = View_shell currentPage.
Proof.
  intros Hfault Hdoc signed_in signed_out delivered.
  assert (Hin : signed_in
                = (Ok [fu],
                   set_token (Some (id_token env (length (calls w))))
                             (log (Op_getIdToken (fb_uid fu)) w))).
  { unfold signed_in, onAuthStateChanged_callback, try_catch, getIdToken, sdk_call, bind.
    rewrite Hfault. reflexivity. }
  assert (Hdelivered : delivered
                       = (Ok tt, set_user (Some (mkUser (fb_uid fu) d)) (snd signed_out))).
  { unfold delivered, deliver_snapshot, onSnapshot_callback, bind, get.
    replace (users (snd signed_out)) with (users w)
      by (unfold signed_out; rewrite Hin; reflexivity).
    rewrite Hdoc. reflexivity. }
  rewrite Hdelivered. unfold signed_out. rewrite Hin.
  repeat split.
Qed.

(** [refreshUser] after a successful [register], for the user just
    created: when the vendor service rejects nothing, the context holds the
    refreshed token and the user made of the new uid and the document
    [register] wrote.  Without a current user [refreshUser] does nothing. *)
Theorem refreshUser_after_register
        (env1 : Env) (email password : string) (inviteCode : option string)
        (w w1 : World) (fbEmail : option string) :
  let uid := fresh_uid env1 (length (accounts w)) in
  register env1 email password inviteCode w = (Ok tt, w1) ->
  (forall n, length (calls w1) <= n -> fault env n = None) ->
  exists w2 d,
    refreshUser env (Some (mkFirebaseUser uid fbEmail)) w1 = (Ok tt, w2)
    /\ get_doc uid (users w1) = Some d
    /\ user w2 = Some (mkUser uid d)
    /\ UserDoc.email d = email
    /\ token w2 = Some (id_token env (length (calls w1)))
    /\ refreshUser env None w1 = (Ok tt, w1).
Proof.
  intros uid Hreg Hnf.
  apply register_ok_effects in Hreg.
  destruct Hreg as [inviter [lookup [first [more Hreg]]]]. cbv zeta in Hreg.
  destruct Hreg as [_ [_ [_ [Husers _]]]]. fold uid in Husers.
  set (d := new_user_doc email (last more first) (or_null inviter)) in *.
  assert (Hdoc : get_doc uid (users w1) = Some d)
    by (rewrite Husers; apply get_doc_set_doc).
  unfold refreshUser, getIdToken, getDoc_users. cbn [fb_uid].
  unfold bind at 1. rewrite sdk_call_no_fault by (apply Hnf; lia).
  unfold ret at 1. unfold bind at 1, modify at 1.
  unfold bind at 1. rewrite sdk_call_no_fault by (apply Hnf; calls_bound).
  unfold get at 1. cbn [users log set_calls set_token]. rewrite Hdoc.
  unfold modify, ret.
  eexists. exists d. repeat split.
Qed.

End Listeners.

Lemma snapshot_after_sign_out_witness :
  let fu := mkFirebaseUser "ana" (Some "ana@monety.app") in
  let signed_in := onAuthStateChanged_callback env_walk (Some fu) world_two in
  let signed_out := onAuthStateChanged_callback env_walk None (snd signed_in) in
  let delivered := deliver_snapshot fu (snd signed_out) in
  fst signed_in = Ok [fu]
  /\ user (snd signed_out) = None /\ token (snd signed_out) = None
  /\ App (snd signed_out) home login_page = View_auth login_page
  /\ user (snd delivered) = Some (mkUser (fb_uid fu) ana_doc)
  /\ token (snd delivered) = None
  /\ App (snd delivered) home login_page = View_shell home.
Proof.
  apply (snapshot_after_sign_out env_walk
           (mkFirebaseUser "ana" (Some "ana@monety.app")) ana_doc world_two
           home login_page).
  - reflexivity.
  - reflexivity.
Defined.

Lemma refreshUser_after_register_witness :
  exists w2 d,
    refreshUser env_walk
                (Some (mkFirebaseUser (fresh_uid env_walk (length (accounts world_two)))
                                      (Some "caio@monety.app")))
                (snd caio_registers) = (Ok tt, w2)
    /\ get_doc (fresh_uid env_walk (length (accounts world_two)))
               (users (snd caio_registers)) = Some d
    /\ user w2 = Some (mkUser (fresh_uid env_walk (length (accounts world_two))) d)
    /\ UserDoc.email d = "caio@monety.app"
    /\ token w2 = Some (id_token env_walk (length (calls (snd caio_registers))))
    /\ refreshUser env_walk None (snd caio_registers) = (Ok tt, snd caio_registers).
Proof.
  apply (refreshUser_after_register env_walk env_walk "caio@monety.app" "pw1234"
           (Some "mpaaaaaa") world_two (snd caio_registers) (Some "caio@monety.app")).
  - exact caio_registers_ok.
  - intros n _. reflexivity.
Defined.
